(** * GreenGalaxyMVP: room server, collision index and avatar animation

    A shallow embedding of the Colyseus room ([server/src/rooms/MyRoom.ts],
    [server/src/rooms/schema/MyRoomState.ts]) and of the client helpers
    [isBlocked], the collider build of [loadEnvironment], [setBaseAnim]
    and [playWave] (client [App] component), followed by the properties
    of the synchronisation subsystem that were checked against them.

    Conventions of the embedding.
    - A JavaScript number is a value of [num]: NaN, the two infinities, or
      a finite value carried as a rational.  Comparisons, [Math.min] and
      [Math.max] are exact on doubles, so they are modelled exactly;
      additions and products are modelled without rounding and decimal
      literals stand for their decimal value.  The sign of zero is not
      tracked.
    - A JavaScript string is the list of its UTF-16 code units, which is
      what [slice], [length] and [trim] work on.
    - A [MapSchema] is a finite map from session ids to entries; mutating
      the object returned by [get] is written as re-inserting the
      modified entry under the same key. *)

From Stdlib Require Import QArith Lqa Lia ZArith List String Ascii.
From stdpp Require Import gmap strings list fin_maps.
Import ListNotations.

Local Open Scope Q_scope.

(** ** JavaScript numbers *)

Module JS.

Inductive num : Type :=
| NaN
| NegInf
| Fin (q : Q)
| PosInf.

(** [a <= b] on numbers; every comparison with NaN is false. *)
Definition leb (a b : num) : bool :=
  match a, b with
  | NaN, _ | _, NaN => false
  | NegInf, _ => true
  | _, PosInf => true
  | Fin p, Fin q => Qle_bool p q
  | Fin _, NegInf => false
  | PosInf, _ => false
  end.

(** [a >= b]. *)
Definition geb (a b : num) : bool := leb b a.

(** [a < b]. *)
Definition ltb (a b : num) : bool :=
  match a, b with
  | NaN, _ | _, NaN => false
  | _, _ => negb (leb b a)
  end.

Definition is_nan (a : num) : bool :=
  match a with NaN => true | _ => false end.

(** [Math.min(a, b)] and [Math.max(a, b)]: NaN as soon as one argument
    is NaN, otherwise the smaller (larger) argument; the two arguments
    are the same number when neither is smaller. *)
Definition Math_min (a b : num) : num :=
  if is_nan a || is_nan b then NaN
  else if leb b a then b else a.

Definition Math_max (a b : num) : num :=
  if is_nan a || is_nan b then NaN
  else if leb a b then b else a.

(** [Number.isFinite(a)]. *)
Definition isFinite (a : num) : bool :=
  match a with Fin _ => true | _ => false end.

(** [a + b]. *)
Definition add (a b : num) : num :=
  match a, b with
  | NaN, _ | _, NaN => NaN
  | PosInf, NegInf | NegInf, PosInf => NaN
  | PosInf, _ | _, PosInf => PosInf
  | NegInf, _ | _, NegInf => NegInf
  | Fin p, Fin q => Fin (p + q)
  end.

(** Unary minus. *)
Definition neg (a : num) : num :=
  match a with
  | NaN => NaN
  | NegInf => PosInf
  | PosInf => NegInf
  | Fin q => Fin (- q)
  end.

(** [a - b]. *)
Definition sub (a b : num) : num := add a (neg b).

(** [a * b]; zero times an infinity is NaN. *)
Definition mul (a b : num) : num :=
  match a, b with
  | NaN, _ | _, NaN => NaN
  | Fin p, Fin q => Fin (p * q)
  | Fin p, PosInf | PosInf, Fin p =>
      if Qeq_bool p 0 then NaN else if Qle_bool 0 p then PosInf else NegInf
  | Fin p, NegInf | NegInf, Fin p =>
      if Qeq_bool p 0 then NaN else if Qle_bool 0 p then NegInf else PosInf
  | PosInf, PosInf | NegInf, NegInf => PosInf
  | PosInf, NegInf | NegInf, PosInf => NegInf
  end.

(** [Math.PI], the double nearest to pi: 884279719003555 / 2^48. *)
Definition Math_PI : num := Fin (884279719003555 # 281474976710656).

(** *** Strings *)

(** A string is the list of its UTF-16 code units. *)
Definition jsstring : Type := list N.

(** The string with the code units of an ASCII literal. *)
Definition lit (s : string) : jsstring :=
  List.map N_of_ascii (list_ascii_of_string s).

(** White space and line terminators, the code units that
    [String.prototype.trim] strips. *)
Definition is_space (c : N) : bool :=
  (N.eqb c 9 || N.eqb c 10 || N.eqb c 11 || N.eqb c 12 || N.eqb c 13
   || N.eqb c 32 || N.eqb c 160 || N.eqb c 5760
   || (N.leb 8192 c && N.leb c 8202)
   || N.eqb c 8232 || N.eqb c 8233 || N.eqb c 8239 || N.eqb c 8287
   || N.eqb c 12288 || N.eqb c 65279)%N.

Fixpoint trimStart (s : jsstring) : jsstring :=
  match s with
  | [] => []
  | c :: s' => if is_space c then trimStart s' else s
  end.

Definition trimEnd (s : jsstring) : jsstring :=
  rev (trimStart (rev s)).

(** [s.trim()]. *)
Definition trim (s : jsstring) : jsstring := trimEnd (trimStart s).

(** [s.slice(0, n)] for a non-negative [n]. *)
Definition slice0 (n : nat) (s : jsstring) : jsstring := firstn n s.

(** *** Values found in a message payload *)

Inductive value : Type :=
| VUndefined
| VNull
| VBool (b : bool)
| VNum (n : num)
| VStr (s : jsstring)
| VObject.

(** The [typeof] operator. *)
Definition typeof (v : value) : string :=
  match v with
  | VUndefined => "undefined"
  | VNull => "object"
  | VBool _ => "boolean"
  | VNum _ => "number"
  | VStr _ => "string"
  | VObject => "object"
  end%string.

End JS.

Import JS.

(** ** The room server ([MyRoom.ts], [MyRoomState.ts]) *)

Module Room.

(** [class PlayerState extends Schema]. *)
Record PlayerState : Type := mkPlayerState {
  id : jsstring;
  name : jsstring;
  avatarKey : jsstring;
  x : num;
  y : num;
  z : num;
  ry : num
}.

(** [new PlayerState()]: the field initialisers of the class. *)
Definition new_PlayerState : PlayerState :=
  {| id := lit EmptyString; name := lit "Guest"; avatarKey := lit "a1";
     x := Fin 0; y := Fin 0; z := Fin 0; ry := Fin 0 |}.

Definition set_id (p : PlayerState) (v : jsstring) : PlayerState :=
  {| id := v; name := name p; avatarKey := avatarKey p;
     x := x p; y := y p; z := z p; ry := ry p |}.
Definition set_name (p : PlayerState) (v : jsstring) : PlayerState :=
  {| id := id p; name := v; avatarKey := avatarKey p;
     x := x p; y := y p; z := z p; ry := ry p |}.
Definition set_avatarKey (p : PlayerState) (v : jsstring) : PlayerState :=
  {| id := id p; name := name p; avatarKey := v;
     x := x p; y := y p; z := z p; ry := ry p |}.
Definition set_x (p : PlayerState) (v : num) : PlayerState :=
  {| id := id p; name := name p; avatarKey := avatarKey p;
     x := v; y := y p; z := z p; ry := ry p |}.
Definition set_y (p : PlayerState) (v : num) : PlayerState :=
  {| id := id p; name := name p; avatarKey := avatarKey p;
     x := x p; y := v; z := z p; ry := ry p |}.
Definition set_z (p : PlayerState) (v : num) : PlayerState :=
  {| id := id p; name := name p; avatarKey := avatarKey p;
     x := x p; y := y p; z := v; ry := ry p |}.
Definition set_ry (p : PlayerState) (v : num) : PlayerState :=
  {| id := id p; name := name p; avatarKey := avatarKey p;
     x := x p; y := y p; z := z p; ry := v |}.

(** [class MyRoomState extends Schema]. *)
Record MyRoomState : Type := mkRoomState {
  players : gmap jsstring PlayerState;
  envKey : jsstring
}.

(** [new MyRoomState()], installed by [onCreate]. *)
Definition new_MyRoomState : MyRoomState :=
  {| players := ∅; envKey := lit "office" |}.

(** *** Messages *)

(** The payload of a [move] message: the values read at the properties
    [x], [y], [z] and [ry] ([VUndefined] for a property that is absent). *)
Record MoveMsg : Type := mkMoveMsg {
  msg_x : value;
  msg_y : value;
  msg_z : value;
  msg_ry : value
}.

(** [{ text?: string }] and [{ emote?: string }]. *)
Record ChatMsg : Type := mkChatMsg { text : option jsstring }.
Record EmoteMsg : Type := mkEmoteMsg { emote : option jsstring }.

(** [type JoinOptions]. *)
Record JoinOptions : Type := mkJoinOptions {
  opt_name : option jsstring;
  opt_avatarKey : option jsstring;
  opt_envKey : option jsstring
}.

(** What [this.broadcast] sends to the room. *)
Inductive Broadcast : Type :=
| BChat (b_id b_name b_text : jsstring) (ts : Z)
| BEmote (b_id b_emote : jsstring).

(** How a handler ends: normally, or by a [TypeError] raised when a
    property of an [undefined] or [null] payload is read.  Both carry the
    room state at that point. *)
Inductive Completion : Type :=
| Normal (st : MyRoomState)
| Throw (st : MyRoomState).

Definition state_of (c : Completion) : MyRoomState :=
  match c with Normal st | Throw st => st end.

(** [a ?? b]. *)
Definition nullish {A : Type} (a : option A) (b : A) : A :=
  match a with Some v => v | None => b end.

(** [Math.max(-50, Math.min(50, v))]. *)
Definition clamp50 (v : num) : num :=
  Math_max (Fin (-50)) (Math_min (Fin 50) v).

(** *** Handlers *)

(** The ["move"] handler.  A payload of [None] stands for an [undefined]
    or [null] message, on which [msg.x] throws. *)
Definition onMove (st : MyRoomState) (sessionId : jsstring)
    (msg : option MoveMsg) : Completion :=
  match players st !! sessionId with
  | None => Normal st
  | Some p =>
      match msg with
      | None => Throw st
      | Some m =>
          let p := match msg_x m with
                   | VNum v => set_x p (clamp50 v)
                   | _ => p
                   end in
          let p := match msg_y m with
                   | VNum v => set_y p (clamp50 v)
                   | _ => p
                   end in
          let p := match msg_z m with
                   | VNum v => set_z p (clamp50 v)
                   | _ => p
                   end in
          let p := match msg_ry m with
                   | VNum v => set_ry p v
                   | _ => p
                   end in
          Normal {| players := <[sessionId := p]> (players st);
                    envKey := envKey st |}
      end
  end.

(** The ["chat"] handler; [now] is the value of [Date.now()].  The state
    is only read. *)
Definition onChat (st : MyRoomState) (sessionId : jsstring)
    (msg : option ChatMsg) (now : Z) : list Broadcast :=
  let text := trim (nullish (msg ≫= text) (lit EmptyString)) in
  match text with
  | [] => []
  | _ =>
      let p := players st !! sessionId in
      let name := nullish (name <$> p) (lit "Guest") in
      [BChat sessionId name (slice0 500 text) now]
  end.

(** The ["emote"] handler. *)
Definition onEmote (sessionId : jsstring) (data : option EmoteMsg)
    : list Broadcast :=
  let emote := nullish (data ≫= emote) (lit EmptyString) in
  match emote with
  | [] => []
  | _ => [BEmote sessionId emote]
  end.

(** [onJoin(client, options)]. *)
Definition onJoin (st : MyRoomState) (sessionId : jsstring)
    (options : option JoinOptions) : MyRoomState :=
  let env :=
    if Nat.eqb (size (players st)) 0 then
      let requested := nullish (options ≫= opt_envKey) (lit EmptyString) in
      if decide (requested = lit "whitespace")
      then lit "whitespace" else lit "office"
    else envKey st in
  let p := new_PlayerState in
  let p := set_id p sessionId in
  let p := set_name p (slice0 32 (nullish (options ≫= opt_name) (lit "Guest"))) in
  let p := set_avatarKey p (nullish (options ≫= opt_avatarKey) (lit "a1")) in
  let p := set_x p (Fin 0) in
  let p := set_y p (Fin 1) in
  let p := set_z p (Fin (-2)) in
  let p := set_ry p Math_PI in
  {| players := <[sessionId := p]> (players st); envKey := env |}.

(** How the promise of [this.allowReconnection(client, seconds)] is
    settled. *)
Inductive Settled : Type := Resolved | Rejected.

(** Modelled from the spec: the framework's [allowReconnection], which
    is not part of the sources.  It grants a window of [seconds] during
    which the same session may resume: the promise is resolved when the
    session comes back inside the window and rejected on expiry.
    [arrival] is the time in seconds, counted from the disconnection, at
    which the session reconnects ([None] when it never does). *)
Definition allowReconnection (seconds : Q) (arrival : option Q) : Settled :=
  match arrival with
  | Some t => if Qle_bool seconds t then Rejected else Resolved
  | None => Rejected
  end.

(** [onLeave(client, consented)], from the moment the promise of
    [this.allowReconnection(client, 5)] is settled: the [try] branch
    leaves the state alone, the [catch] branch deletes the entry.
    Nothing is done before the [await]; [st] is the room state when the
    function resumes. *)
Definition onLeave (st : MyRoomState) (sessionId : jsstring)
    (consented : bool) (arrival : option Q) : MyRoomState :=
  match allowReconnection 5 arrival with
  | Resolved => st
  | Rejected => {| players := delete sessionId (players st);
                   envKey := envKey st |}
  end.

(** *** Runs of the room *)

(** The room handles one callback at a time; a run is the sequence of
    callbacks in the order they execute. *)
Inductive Event : Type :=
| EJoin (sessionId : jsstring) (options : option JoinOptions)
| EMove (sessionId : jsstring) (msg : option MoveMsg)
| EChat (sessionId : jsstring) (msg : option ChatMsg) (now : Z)
| EEmote (sessionId : jsstring) (data : option EmoteMsg)
| ELeave (sessionId : jsstring) (consented : bool) (arrival : option Q).

Definition session (e : Event) : jsstring :=
  match e with
  | EJoin s _ | EMove s _ | EChat s _ _ | EEmote s _ | ELeave s _ _ => s
  end.

Definition step (st : MyRoomState) (e : Event) : MyRoomState :=
  match e with
  | EJoin s o => onJoin st s o
  | EMove s m => state_of (onMove st s m)
  | EChat _ _ _ => st
  | EEmote _ _ => st
  | ELeave s c o => onLeave st s c o
  end.

Definition emitted (st : MyRoomState) (e : Event) : list Broadcast :=
  match e with
  | EChat s m now => onChat st s m now
  | EEmote s d => onEmote s d
  | _ => []
  end.

Fixpoint run (st : MyRoomState) (es : list Event) : MyRoomState :=
  match es with
  | [] => st
  | e :: es' => run (step st e) es'
  end.

(** Every join of the run finds a non-empty players map. *)
Fixpoint joins_find_players (st : MyRoomState) (es : list Event) : bool :=
  match es with
  | [] => true
  | e :: es' =>
      match e with
      | EJoin _ _ => negb (Nat.eqb (size (players st)) 0)
      | _ => true
      end && joins_find_players (step st e) es'
  end.

End Room.

(** ** The collision index (client [App]: [isBlocked], [loadEnvironment]) *)

Module Collision.

(** [THREE.Vector3] and [THREE.Box3], as far as the client uses them;
    their methods are written after the library's sources. *)
Record Vector3 : Type := mkVector3 { x : num; y : num; z : num }.
Record Box3 : Type := mkBox3 { min : Vector3; max : Vector3 }.

(** [new THREE.Box3()]: the empty box. *)
Definition new_Box3 : Box3 :=
  {| min := mkVector3 PosInf PosInf PosInf;
     max := mkVector3 NegInf NegInf NegInf |}.

(** [v.addScalar(s)]. *)
Definition addScalar (v : Vector3) (s : num) : Vector3 :=
  {| x := add (x v) s; y := add (y v) s; z := add (z v) s |}.

(** [b.expandByScalar(s)]: [min.addScalar(-s)], [max.addScalar(s)]. *)
Definition expandByScalar (b : Box3) (s : num) : Box3 :=
  {| min := addScalar (min b) (neg s); max := addScalar (max b) s |}.

(** [b.containsPoint(p)]: the conjunction of the six comparisons
    [p.x >= min.x && p.x <= max.x && ...]. *)
Definition containsPoint (b : Box3) (p : Vector3) : bool :=
  geb (x p) (x (min b)) && leb (x p) (x (max b)) &&
  geb (y p) (y (min b)) && leb (y p) (y (max b)) &&
  geb (z p) (z (min b)) && leb (z p) (z (max b)).

(** [const PLAYER_GROUND_Y = 0.5]. *)
Definition PLAYER_GROUND_Y : num := Fin (1 # 2).

(** [const radius = 0.45] of [isBlocked]. *)
Definition radius : num := Fin (9 # 20).

(** The point sampled by [isBlocked]:
    [new THREE.Vector3(nextPos.x, PLAYER_GROUND_Y + 1.0, nextPos.z)]. *)
Definition probe (nextPos : Vector3) : Vector3 :=
  {| x := x nextPos; y := add PLAYER_GROUND_Y (Fin 1); z := z nextPos |}.

(** The loop of [isBlocked] over [colliderBoxesRef.current]. *)
Fixpoint isBlocked_loop (boxes : list Box3) (p : Vector3) : bool :=
  match boxes with
  | [] => false
  | b :: rest =>
      let expanded := expandByScalar b radius in
      if containsPoint expanded p then true else isBlocked_loop rest p
  end.

(** [isBlocked(nextPos)], with the current collider boxes as argument. *)
Definition isBlocked (colliderBoxes : list Box3) (nextPos : Vector3) : bool :=
  let p := probe nextPos in
  isBlocked_loop colliderBoxes p.

(** *** The sphere test the specification compares [isBlocked] with *)

(** [MathUtils.clamp(value, lo, hi)]. *)
Definition clamp (value lo hi : num) : num :=
  Math_max lo (Math_min hi value).

(** [b.clampPoint(p)]: the point of the box closest to [p]. *)
Definition clampPoint (b : Box3) (p : Vector3) : Vector3 :=
  {| x := clamp (x p) (x (min b)) (x (max b));
     y := clamp (y p) (y (min b)) (y (max b));
     z := clamp (z p) (z (min b)) (z (max b)) |}.

(** [a.distanceToSquared(b)]. *)
Definition distanceToSquared (a b : Vector3) : num :=
  let dx := sub (x a) (x b) in
  let dy := sub (y a) (y b) in
  let dz := sub (z a) (z b) in
  add (add (mul dx dx) (mul dy dy)) (mul dz dz).

(** [b.intersectsSphere({center, radius: r})]. *)
Definition intersectsSphere (b : Box3) (center : Vector3) (r : num) : bool :=
  leb (distanceToSquared (clampPoint b center) center) (mul r r).

(** The test the specification states: some unexpanded box meets the
    sphere of the entity radius centred at the probe point. *)
Definition isBlocked_sphere_spec (colliderBoxes : list Box3)
    (nextPos : Vector3) : bool :=
  existsb (fun b => intersectsSphere b (probe nextPos) radius) colliderBoxes.

(** A box with finite corners and [min <= max] on every axis. *)
Definition finite_ordered (b : Box3) : bool :=
  isFinite (x (min b)) && isFinite (y (min b)) && isFinite (z (min b)) &&
  isFinite (x (max b)) && isFinite (y (max b)) && isFinite (z (max b)) &&
  leb (x (min b)) (x (max b)) && leb (y (min b)) (y (max b)) &&
  leb (z (min b)) (z (max b)).

(** [min < max] on every axis. *)
Definition strictly_ordered (b : Box3) : bool :=
  ltb (x (min b)) (x (max b)) && ltb (y (min b)) (y (max b)) &&
  ltb (z (min b)) (z (max b)).

(** *** Building the boxes *)

(** The test [Number.isFinite(tempBox.min.x)] of the build. *)
Definition finite_min_x (b : Box3) : bool := isFinite (x (min b)).

(** [const shrink = 0.05]. *)
Definition shrink : num := Fin (1 # 20).

(** The four assignments [tempBox.min.x += shrink] ... [tempBox.max.z -=
    shrink]. *)
Definition shrink_xz (b : Box3) : Box3 :=
  {| min := {| x := add (x (min b)) shrink; y := y (min b);
               z := add (z (min b)) shrink |};
     max := {| x := sub (x (max b)) shrink; y := y (max b);
               z := sub (z (max b)) shrink |} |}.

Section Build.

(** The scene graph library is a collaborator: the vertex data of a
    geometry, the world matrix of a node, the bounding box that
    [computeBoundingBox] derives from the vertex data, and the
    axis-aligned box of a transformed box ([Box3.applyMatrix4]) are taken
    as they come. *)
Variable Attributes : Type.
Variable Matrix4 : Type.
Variable computeBoundingBox : Attributes -> option Box3.
Variable applyMatrix4 : Box3 -> Matrix4 -> Box3.

Record BufferGeometry : Type := mkBufferGeometry {
  boundingBox : option Box3;
  attributes : Attributes
}.

(** A node visited by [col.traverse]. *)
Record Object3D : Type := mkObject3D {
  isMesh : bool;
  geometry : option BufferGeometry;
  matrixWorld : Matrix4
}.

(** The state of the traversal: the scratch box [tempBox] and the
    array [boxes]. *)
Record BuildState : Type := mkBuildState {
  tempBox : Box3;
  boxes : list Box3
}.

(** The bounding box of the geometry after
    [if (!m.geometry.boundingBox) m.geometry.computeBoundingBox()]. *)
Definition ensured_boundingBox (g : BufferGeometry) : option Box3 :=
  match boundingBox g with
  | Some b => Some b
  | None => computeBoundingBox (attributes g)
  end.

(** The callback of [col.traverse]. *)
Definition visit (s : BuildState) (o : Object3D) : BuildState :=
  if negb (isMesh o) then s else
  match geometry o with
  | None => s
  | Some g =>
      match ensured_boundingBox g with
      | None => s
      | Some bb =>
          (* tempBox.copy(bb); tempBox.applyMatrix4(tempMat) *)
          let tempBox := applyMatrix4 bb (matrixWorld o) in
          if finite_min_x tempBox then
            (* boxes.push(tempBox.clone()), then the shrink of tempBox *)
            let boxes := boxes s ++ [tempBox] in
            let tempBox := shrink_xz tempBox in
            {| tempBox := tempBox; boxes := boxes |}
          else {| tempBox := tempBox; boxes := boxes s |}
      end
  end.

(** The traversal, over the nodes in visiting order; its result is what
    [colliderBoxesRef.current] is set to. *)
Definition buildColliderBoxes (nodes : list Object3D) : list Box3 :=
  boxes (fold_left visit nodes {| tempBox := new_Box3; boxes := [] |}).

(** The world-space box computed for a node, when it is a mesh with a
    geometry and a bounding box. *)
Definition worldBox (o : Object3D) : option Box3 :=
  if negb (isMesh o) then None else
  match geometry o with
  | None => None
  | Some g =>
      match ensured_boundingBox g with
      | None => None
      | Some bb => Some (applyMatrix4 bb (matrixWorld o))
      end
  end.

(** The world-space boxes of the nodes, in visiting order. *)
Definition worldBoxes (nodes : list Object3D) : list Box3 :=
  flat_map (fun o => match worldBox o with Some b => [b] | None => [] end)
    nodes.

End Build.

Arguments mkBufferGeometry {Attributes} _ _.
Arguments boundingBox {Attributes} _.
Arguments attributes {Attributes} _.
Arguments mkObject3D {Attributes Matrix4} _ _ _.
Arguments isMesh {Attributes Matrix4} _.
Arguments geometry {Attributes Matrix4} _.
Arguments matrixWorld {Attributes Matrix4} _.
Arguments ensured_boundingBox {Attributes} _ _.
Arguments visit {Attributes Matrix4} _ _ _ _.
Arguments buildColliderBoxes {Attributes Matrix4} _ _ _.
Arguments worldBox {Attributes Matrix4} _ _ _.
Arguments worldBoxes {Attributes Matrix4} _ _ _.

End Collision.

(** ** The animation state machine (client [App]: [setBaseAnim], [playWave]) *)

Module Anim.

(** [type AnimKey = "idle" | "walk" | "wave"]. *)
Inductive AnimKey : Type := idle | walk | wave.

(** ["idle" | "walk"], the type of the second argument of [setBaseAnim]. *)
Inductive BaseKey : Type := base_idle | base_walk.

Definition key_of (b : BaseKey) : AnimKey :=
  match b with base_idle => idle | base_walk => walk end.

Definition AnimKey_eqb (a b : AnimKey) : bool :=
  match a, b with
  | idle, idle | walk, walk | wave, wave => true
  | _, _ => false
  end.

Inductive LoopMode : Type := LoopOnce | LoopRepeat.

(** The calls made on a [THREE.AnimationAction]. *)
Inductive Call : Type :=
| reset
| play
| stop
| fadeIn (seconds : Q)
| fadeOut (seconds : Q)
| setLoop (mode : LoopMode) (repetitions : option nat)
| set_enabled (b : bool)
| setEffectiveTimeScale (s : Q)
| setEffectiveWeight (w : Q)
| set_clampWhenFinished (b : bool).

(** The part of [PlayerRig] that the animation code reads and writes.
    [calls] is the sequence of calls made so far on [rig.actions], each
    with the action it was made on; [listeners] counts the [onFinished]
    closures of [playWave] registered on [rig.mixer] for ["finished"]. *)
Record PlayerRig : Type := mkPlayerRig {
  current : AnimKey;
  emoteActive : bool;
  listeners : nat;
  calls : list (AnimKey * Call)
}.

(** The rig as [ensureRig] creates it. *)
Definition new_rig : PlayerRig :=
  {| current := idle; emoteActive := false; listeners := 0;
     calls := [(idle, reset); (idle, setLoop LoopRepeat None); (idle, play)] |}.

(** [setBaseAnim(rig, next)]. *)
Definition setBaseAnim (rig : PlayerRig) (next_ : BaseKey) : PlayerRig :=
  let next := key_of next_ in
  if emoteActive rig then rig
  else if AnimKey_eqb (current rig) next then rig
  else
    let prev := current rig in
    {| current := next;
       emoteActive := emoteActive rig;
       listeners := listeners rig;
       calls := calls rig ++
                [(next, reset); (next, setLoop LoopRepeat None); (next, play);
                 (next, fadeIn (12 # 100)); (prev, fadeOut (12 # 100))] |}.

(** [playWave(rig)]. *)
Definition playWave (rig : PlayerRig) : PlayerRig :=
  if emoteActive rig then rig
  else
    {| current := current rig;
       emoteActive := true;
       listeners := S (listeners rig);
       calls := calls rig ++
                [(idle, fadeOut (8 # 100)); (walk, fadeOut (8 # 100));
                 (wave, set_enabled true); (wave, setEffectiveTimeScale 1);
                 (wave, setEffectiveWeight 1); (wave, stop); (wave, reset);
                 (wave, setLoop LoopOnce (Some 1%nat));
                 (wave, set_clampWhenFinished true);
                 (wave, fadeIn (5 # 100)); (wave, play)] |}.

(** One [onFinished] closure receiving the event of the action [action]. *)
Definition onFinished (rig : PlayerRig) (action : AnimKey) : PlayerRig :=
  if negb (AnimKey_eqb action wave) then rig
  else
    {| current := idle;
       emoteActive := false;
       listeners := pred (listeners rig);
       calls := calls rig ++
                [(wave, fadeOut (8 # 100)); (idle, reset);
                 (idle, fadeIn (12 # 100)); (idle, play)] |}.

(** The mixer dispatching ["finished"] for [action]: every closure that
    is registered when the dispatch starts is called once. *)
Definition finished (rig : PlayerRig) (action : AnimKey) : PlayerRig :=
  Nat.iter (listeners rig) (fun r => onFinished r action) rig.

(** The state the entity is shown in. *)
Definition shown (rig : PlayerRig) : AnimKey :=
  if emoteActive rig then wave else current rig.

(** What can happen to a rig. *)
Inductive Input : Type :=
| Base (next : BaseKey)
| Wave
| Finished (action : AnimKey).

Definition react (rig : PlayerRig) (i : Input) : PlayerRig :=
  match i with
  | Base next => setBaseAnim rig next
  | Wave => playWave rig
  | Finished a => finished rig a
  end.

End Anim.

(** ** Vocabulary of the statements about the room *)

Module RoomSpec.
Import Room.

(** A stored coordinate inside the interval [-50, 50]. *)
Definition in_range (v : num) : Prop :=
  match v with
  | Fin q => -50 <= q <= 50
  | _ => False
  end.

(** [r] is the point of [-50, 50] nearest to [v]; [v] is not NaN. *)
Definition clamped (v r : num) : Prop :=
  match v with
  | NaN => False
  | NegInf => r = Fin (-50)
  | PosInf => r = Fin 50
  | Fin q =>
      (q < -50 /\ r = Fin (-50)) \/ (-50 <= q <= 50 /\ r = Fin q) \/
      (50 < q /\ r = Fin 50)
  end.

(** How a clamped field of the entry relates to the field of the message:
    a number other than NaN is stored clamped, anything that is not a
    number leaves the old value. *)
Definition clamped_update (field : value) (old new : num) : Prop :=
  (forall n, field = VNum n -> n <> NaN -> in_range new /\ clamped n new) /\
  (typeof field <> "number"%string -> new = old).

(** The same for the unclamped field [ry]. *)
Definition plain_update (field : value) (old new : num) : Prop :=
  (forall n, field = VNum n -> new = n) /\
  (typeof field <> "number"%string -> new = old).

(** The environment a join into an empty room selects. *)
Definition requested_env (options : option JoinOptions) : jsstring :=
  match options ≫= opt_envKey with
  | Some k => if decide (k = lit "whitespace") then lit "whitespace"
              else lit "office"
  | None => lit "office"
  end.

(** The entry [onJoin] creates for a session. *)
Definition spawned (sessionId : jsstring) (options : option JoinOptions)
    : PlayerState :=
  {| id := sessionId;
     name := slice0 32 (nullish (options ≫= opt_name) (lit "Guest"));
     avatarKey := nullish (options ≫= opt_avatarKey) (lit "a1");
     x := Fin 0; y := Fin 1; z := Fin (-2); ry := Math_PI |}.

(** No reconnection inside the window of [seconds]. *)
Definition too_late (seconds : Q) (arrival : option Q) : Prop :=
  match arrival with
  | Some t => seconds <= t
  | None => True
  end.

(** Sample data. *)
Definition alice : jsstring := lit "alice".
Definition bob : jsstring := lit "bob".

Definition wants (env : string) : option JoinOptions :=
  Some {| opt_name := None; opt_avatarKey := None;
          opt_envKey := Some (lit env) |}.

Definition only_x (v : value) : MoveMsg :=
  {| msg_x := v; msg_y := VUndefined; msg_z := VUndefined;
     msg_ry := VUndefined |}.

Definition room_of_alice : MyRoomState :=
  onJoin new_MyRoomState alice (wants "whitespace").

End RoomSpec.

(** ** Sample data of the statements about the collision index *)

Module CollisionSpec.
Import Collision.

(** A pillar: the box [0,1] x [0,3] x [0,1]. *)
Definition pillar : Box3 :=
  {| min := mkVector3 (Fin 0) (Fin 0) (Fin 0);
     max := mkVector3 (Fin 1) (Fin 3) (Fin 1) |}.

(** A position 0.4 away from the pillar along x only. *)
Definition beside_pillar : Vector3 :=
  mkVector3 (Fin (14 # 10)) (Fin (1 # 2)) (Fin (1 # 2)).

(** A position 0.4 away from the pillar along x and along z. *)
Definition off_corner : Vector3 :=
  mkVector3 (Fin (14 # 10)) (Fin (1 # 2)) (Fin (14 # 10)).

(** What [Box3.applyMatrix4] yields for finite data: the empty box for
    an empty box, otherwise the bounds of eight finite corners. *)
Definition regular (b : Box3) : Prop :=
  b = new_Box3 \/ finite_ordered b = true.

(** The unit cube and a flat square lying in the plane y = 0. *)
Definition unit_cube : Box3 :=
  {| min := mkVector3 (Fin 0) (Fin 0) (Fin 0);
     max := mkVector3 (Fin 1) (Fin 1) (Fin 1) |}.

Definition flat_square : Box3 :=
  {| min := mkVector3 (Fin 0) (Fin 0) (Fin 0);
     max := mkVector3 (Fin 1) (Fin 0) (Fin 1) |}.

(** A collider scene whose nodes sit at the origin, unrotated and
    unscaled: the world box of a mesh is the bounding box of its
    geometry.  Geometries carry no vertex data here, so a missing
    bounding box stays missing. *)
Definition no_vertices (_ : unit) : option Box3 := None.
Definition identity_transform (b : Box3) (_ : unit) : Box3 := b.

Definition mesh_of (b : Box3) : Object3D unit unit :=
  {| isMesh := true;
     geometry := Some {| boundingBox := Some b; attributes := tt |};
     matrixWorld := tt |}.

Definition group_node : Object3D unit unit :=
  {| isMesh := false; geometry := None; matrixWorld := tt |}.

End CollisionSpec.

(** ** The client loop (client [App]: input, camera, chat, emotes,
    avatar placement and the local player's frame) *)

Module Client.
Import Collision Anim.

(** [a / b]; the sign of a zero divisor is not tracked and taken
    positive. *)
Definition div (a b : num) : num :=
  match a, b with
  | NaN, _ | _, NaN => NaN
  | Fin p, Fin q =>
      if Qeq_bool q 0 then
        if Qeq_bool p 0 then NaN else if Qle_bool 0 p then PosInf else NegInf
      else Fin (p / q)
  | Fin _, _ => Fin 0
  | PosInf, Fin q => if Qle_bool 0 q then PosInf else NegInf
  | NegInf, Fin q => if Qle_bool 0 q then NegInf else PosInf
  | _, _ => NaN
  end.

(** [a || b] on numbers: [a] unless it is zero or NaN. *)
Definition or_else (a b : num) : num :=
  match a with
  | NaN => b
  | Fin q => if Qeq_bool q 0 then b else a
  | _ => a
  end.

(** An integer as a number. *)
Definition of_Z (n : Z) : num := Fin (inject_Z n).

(** *** Avatar placement *)

(** [computeFeetOffset(obj)], from the box [computeBox(obj)] returns. *)
Definition computeFeetOffset (box : Box3) : num :=
  let minY := y (min box) in
  if negb (isFinite minY) then Fin 0 else neg minY.


(** *** The orbit camera *)

Inductive CameraMode : Type := third | first.

(** [camRef.current]. *)
Record Cam : Type := mkCam {
  yaw : num;
  pitch : num;
  dist : num;
  lmbDown : bool
}.

(** [useRef({ yaw: 0, pitch: -0.25, dist: 6, lmbDown: false })]. *)
Definition initial_cam : Cam :=
  {| yaw := Fin 0; pitch := Fin (- (25 # 100)); dist := Fin 6;
     lmbDown := false |}.

Definition onMouseDown (cam : Cam) (button : Z) : Cam :=
  if Z.eqb button 0
  then {| yaw := yaw cam; pitch := pitch cam; dist := dist cam;
          lmbDown := true |}
  else cam.

Definition onMouseUp (cam : Cam) (button : Z) : Cam :=
  if Z.eqb button 0
  then {| yaw := yaw cam; pitch := pitch cam; dist := dist cam;
          lmbDown := false |}
  else cam.

Definition onMouseMove (cam : Cam) (movementX movementY : num) : Cam :=
  if negb (lmbDown cam) then cam
  else
    let sens := Fin (4 # 1000) in
    let yaw1 := add (yaw cam) (mul movementX sens) in
    let pitch1 := sub (pitch cam) (mul movementY sens) in
    let pitch2 :=
      Math_max (Fin (- (85 # 100))) (Math_min (Fin (35 # 100)) pitch1) in
    {| yaw := yaw1; pitch := pitch2; dist := dist cam;
       lmbDown := lmbDown cam |}.

(** [onWheel]; [mode] is [cameraModeRef.current] when the event fires. *)
Definition onWheel (mode : CameraMode) (cam : Cam) (deltaY : num) : Cam :=
  match mode with
  | first => cam
  | third =>
      let dist1 := add (dist cam) (mul deltaY (Fin (1 # 100))) in
      let dist2 := Math_max (Fin (45 # 10)) (Math_min (Fin 18) dist1) in
      {| yaw := yaw cam; pitch := pitch cam; dist := dist2;
         lmbDown := lmbDown cam |}
  end.

Inductive CamEvent : Type :=
| MouseDown (button : Z)
| MouseUp (button : Z)
| MouseMove (movementX movementY : num)
| Wheel (mode : CameraMode) (deltaY : num).

Definition cam_step (cam : Cam) (e : CamEvent) : Cam :=
  match e with
  | MouseDown b => onMouseDown cam b
  | MouseUp b => onMouseUp cam b
  | MouseMove mx my => onMouseMove cam mx my
  | Wheel mode d => onWheel mode cam d
  end.

(** *** Chat *)

(** [arr.slice(-n)]: the last [n] elements. *)
Definition slice_last {A : Type} (n : nat) (l : list A) : list A :=
  skipn (length l - n) l.

(** The listener of ["chat"]:
    [setChat((prev) => [...prev, msg].slice(-200))]. *)
Definition onChatMessage (prev : list Room.Broadcast) (msg : Room.Broadcast)
    : list Room.Broadcast :=
  slice_last 200 (prev ++ [msg]).

(** [sendChat()]: the message sent, if any, and the new content of the
    input box; [connected] tells whether [roomRef.current] is set. *)
Definition sendChat (connected : bool) (chatInput : jsstring)
    : option Room.ChatMsg * jsstring :=
  if negb connected then (None, chatInput)
  else
    let text := trim chatInput in
    match text with
    | [] => (None, chatInput)
    | _ => (Some {| Room.text := Some text |}, lit EmptyString)
    end.

(** *** Emotes *)

(** The listener of ["emote"], on the registry of rigs
    [threeRef.current.rigs] of a mounted scene. *)
Definition onEmoteMessage (rigs : gmap jsstring PlayerRig)
    (data_id data_emote : jsstring) : gmap jsstring PlayerRig :=
  match rigs !! data_id with
  | None => rigs
  | Some rig =>
      if decide (data_emote = lit "wave")
      then <[data_id := playWave rig]> rigs
      else rigs
  end.

(** [wave()]: the registry afterwards and the message sent, if any.
    [connected] tells whether [roomRef.current] is set; an empty [myId]
    is falsy; [threeRef.current], which holds the registry, is set. *)
Definition wave (connected : bool) (rigs : gmap jsstring PlayerRig)
    (myId : jsstring) : gmap jsstring PlayerRig * option Room.EmoteMsg :=
  if negb connected then (rigs, None)
  else
    match myId with
    | [] => (rigs, None)
    | _ =>
        match rigs !! myId with
        | None => (rigs, None)
        | Some rig =>
            (<[myId := playWave rig]> rigs,
             Some {| Room.emote := Some (lit "wave") |})
        end
    end.

(** *** Vectors *)

(** [v.lengthSq()]. *)
Definition lengthSq (v : Vector3) : num :=
  add (add (mul (x v) (x v)) (mul (y v) (y v))) (mul (z v) (z v)).

(** [v.multiplyScalar(s)]. *)
Definition multiplyScalar (v : Vector3) (s : num) : Vector3 :=
  {| x := mul (x v) s; y := mul (y v) s; z := mul (z v) s |}.

(** [v.divideScalar(s)]. *)
Definition divideScalar (v : Vector3) (s : num) : Vector3 :=
  multiplyScalar v (div (Fin 1) s).

(** [a.addScaledVector(v, s)]. *)
Definition addScaledVector (a v : Vector3) (s : num) : Vector3 :=
  {| x := add (x a) (mul (x v) s); y := add (y a) (mul (y v) s);
     z := add (z a) (mul (z v) s) |}.

(** [a.lerp(v, alpha)]. *)
Definition lerp (a v : Vector3) (alpha : num) : Vector3 :=
  {| x := add (x a) (mul (sub (x v) (x a)) alpha);
     y := add (y a) (mul (sub (y v) (y a)) alpha);
     z := add (z a) (mul (sub (z v) (z a)) alpha) |}.

(** *** The frame of the local player *)

(** The four movement keys of [keysRef.current], by truthiness. *)
Record Keys : Type := mkKeys {
  key_w : bool;
  key_a : bool;
  key_s : bool;
  key_d : bool
}.

(** [(k["w"] ? 1 : 0) + (k["s"] ? -1 : 0)]. *)
Definition forwardInput (k : Keys) : Z :=
  ((if key_w k then 1 else 0) + (if key_s k then -1 else 0))%Z.

(** [(k["d"] ? 1 : 0) + (k["a"] ? -1 : 0)]. *)
Definition strafeInput (k : Keys) : Z :=
  ((if key_d k then 1 else 0) + (if key_a k then -1 else 0))%Z.

(** What the frame reads and writes of the local rig: [me.root.position],
    [me.root.rotation.y] and the animation state. *)
Record LocalPlayer : Type := mkLocalPlayer {
  position : Vector3;
  rotation_y : num;
  rig : PlayerRig
}.

Section Frame.

(** The elementary functions are taken as they come. *)
Variable Math_sin : num -> num.
Variable Math_cos : num -> num.
Variable Math_sqrt : num -> num.
Variable Math_atan2 : num -> num -> num.

(** [v.length()] and [v.normalize()]. *)
Definition length (v : Vector3) : num := Math_sqrt (lengthSq v).

Definition normalize (v : Vector3) : Vector3 :=
  divideScalar v (or_else (length v) (Fin 1)).

(** The part of [animate] that moves the local player [me]: the player
    afterwards and the ["move"] message sent, if any.  [colliderBoxes] is
    [colliderBoxesRef.current], [camYaw] is [camRef.current.yaw], [dt]
    the time since the last frame. *)
Definition localFrame (connected : bool) (colliderBoxes : list Box3)
    (k : Keys) (camYaw dt : num) (me : LocalPlayer)
    : LocalPlayer * option Room.MoveMsg :=
  (* me.root.position.y = PLAYER_GROUND_Y *)
  let pos := {| x := x (position me); y := PLAYER_GROUND_Y;
                z := z (position me) |} in
  let forward :=
    normalize {| x := neg (Math_sin camYaw); y := Fin 0;
                 z := neg (Math_cos camYaw) |} in
  let right :=
    normalize {| x := Math_cos camYaw; y := Fin 0;
                 z := neg (Math_sin camYaw) |} in
  let speed := Fin (68 # 10) in
  let stay :=
    (* if (!moved && !me.emoteActive) setBaseAnim(me, "idle") *)
    ({| position := pos; rotation_y := rotation_y me;
        rig := if negb (emoteActive (rig me))
               then setBaseAnim (rig me) base_idle else rig me |},
     None) in
  if negb (Z.eqb (forwardInput k) 0) || negb (Z.eqb (strafeInput k) 0) then
    let move :=
      addScaledVector
        (addScaledVector (mkVector3 (Fin 0) (Fin 0) (Fin 0))
           forward (of_Z (forwardInput k)))
        right (of_Z (strafeInput k)) in
    if ltb (Fin 0) (lengthSq move) then
      let move := multiplyScalar (normalize move) (mul speed dt) in
      let proposed := {| x := add (x pos) (x move); y := y pos;
                         z := add (z pos) (z move) |} in
      if negb (isBlocked colliderBoxes proposed) then
        let pos := {| x := x proposed; y := PLAYER_GROUND_Y;
                      z := z proposed |} in
        let faceYaw := Math_atan2 (x move) (z move) in
        let rig1 := if negb (emoteActive (rig me))
                    then setBaseAnim (rig me) base_walk else rig me in
        ({| position := pos; rotation_y := faceYaw; rig := rig1 |},
         if connected
         then Some {| Room.msg_x := VNum (x pos);
                      Room.msg_y := VNum PLAYER_GROUND_Y;
                      Room.msg_z := VNum (z pos);
                      Room.msg_ry := VNum faceYaw |}
         else None)
      else stay
    else stay
  else stay.

(** The part of [animate] that moves the rig of another player:
    [rig.root.position.lerp(rig.targetPos, 0.25)]. *)
Definition remoteFrame (pos targetPos : Vector3) : Vector3 :=
  lerp pos targetPos (Fin (25 # 100)).

End Frame.

End Client.

(** ** Vocabulary of the statements about the client *)

Module ClientSpec.
Import Collision Anim Client.

(** The camera inside its limits: pitch in [-0.85, 0.35], distance in
    [4.5, 18]. *)
Definition cam_in_limits (cam : Cam) : Prop :=
  (exists q, pitch cam = Fin q /\ - (85 # 100) <= q <= 35 # 100) /\
  (exists q, dist cam = Fin q /\ 45 # 10 <= q <= 18).

(** The numbers an input event carries are finite. *)
Definition finite_event (e : CamEvent) : bool :=
  match e with
  | MouseMove mx my => isFinite mx && isFinite my
  | Wheel _ d => isFinite d
  | _ => true
  end.

(** What every rig keeps: one listener exactly while the wave plays, and
    a base animation as [current]. *)
Definition rig_ok (r : PlayerRig) : bool :=
  Nat.eqb (listeners r) (if emoteActive r then 1 else 0) &&
  negb (AnimKey_eqb (current r) Anim.wave).

(** The box is wholly below the height band the probe can reach. *)
Definition below_probe (b : Box3) : bool :=
  ltb (y (max b)) (Fin (21 # 20)).

(** A player standing at the origin with a fresh rig, and a pillar next
    to it. *)
Definition fresh_player : LocalPlayer :=
  {| position := mkVector3 (Fin 0) (Fin 3) (Fin 0); rotation_y := Fin 0;
     rig := new_rig |}.

Definition only_w : Keys :=
  {| key_w := true; key_a := false; key_s := false; key_d := false |}.

Definition no_keys : Keys :=
  {| key_w := false; key_a := false; key_s := false; key_d := false |}.


(** Stand-ins for the elementary functions, exact at the angle 0 used in
    the examples: [sin 0 = 0], [cos 0 = 1], [sqrt 1 = 1]. *)
Definition sin_at_0 (_ : num) : num := Fin 0.
Definition cos_at_0 (_ : num) : num := Fin 1.
Definition sqrt_at_1 (_ : num) : num := Fin 1.
Definition atan2_const (_ _ : num) : num := Math_PI.

End ClientSpec.

(** ** Vocabulary of the invariants of the room *)

Module RoomInv.
Import Room RoomSpec.

(** The entry a move message with payload [m] turns [p] into. *)
Definition moved (p : PlayerState) (m : MoveMsg) : PlayerState :=
  {| id := id p; name := name p; avatarKey := avatarKey p;
     x := match msg_x m with VNum v => clamp50 v | _ => x p end;
     y := match msg_y m with VNum v => clamp50 v | _ => y p end;
     z := match msg_z m with VNum v => clamp50 v | _ => z p end;
     ry := match msg_ry m with VNum v => v | _ => ry p end |}.

(** Every entry is stored under its own [id]. *)
Definition keyed_by_id (st : MyRoomState) : Prop :=
  forall k p, players st !! k = Some p -> id p = k.

(** Every name has at most 32 code units. *)
Definition names_capped (st : MyRoomState) : Prop :=
  forall k p, players st !! k = Some p -> (length (name p) <= 32)%nat.

(** Every stored position lies in the cube [-50, 50]^3. *)
Definition coords_in_range (st : MyRoomState) : Prop :=
  forall k p, players st !! k = Some p ->
    in_range (x p) /\ in_range (y p) /\ in_range (z p).

(** One of the two environments the room knows. *)
Definition known_env (e : jsstring) : Prop :=
  e = lit "office" \/ e = lit "whitespace".

(** A message field that is not NaN. *)
Definition nan_free (v : value) : bool :=
  match v with
  | VNum NaN => false
  | _ => true
  end.

(** An event that is not a move message with NaN at [x], [y] or [z]. *)
Definition position_nan_free (e : Event) : bool :=
  match e with
  | EMove _ (Some m) =>
      nan_free (msg_x m) && nan_free (msg_y m) && nan_free (msg_z m)
  | _ => true
  end.

(** The event is a join of session [k]. *)
Definition joins (k : jsstring) (e : Event) : bool :=
  match e with
  | EJoin s _ => bool_decide (s = k)
  | _ => false
  end.

(** A payload with all four fields. *)
Definition full_move (vx vy vz vry : num) : MoveMsg :=
  {| msg_x := VNum vx; msg_y := VNum vy; msg_z := VNum vz;
     msg_ry := VNum vry |}.

End RoomInv.

(** * Properties *)

(** ** The room server *)

Module RoomProps.
Import Room RoomSpec.

Lemma typeof_number (v : value) :
  typeof v = "number"%string <-> exists n, v = VNum n.
Proof.
  split.
  - destruct v; simpl; intros H; try discriminate. eauto.
  - intros [n ->]. reflexivity.
Qed.

(** *** Clamping *)

Lemma clamp50_NaN : clamp50 NaN = NaN.
Proof. reflexivity. Qed.

Lemma clamp50_PosInf : clamp50 PosInf = Fin 50.
Proof. reflexivity. Qed.

Lemma clamp50_NegInf : clamp50 NegInf = Fin (-50).
Proof. reflexivity. Qed.

Lemma Qle_bool_false (a b : Q) : Qle_bool a b = false <-> b < a.
Proof.
  destruct (Qle_bool a b) eqn:E.
  - apply Qle_bool_iff in E. split; [discriminate | lra].
  - split; [intros _ | reflexivity].
    apply Qnot_le_lt. intros H. apply Qle_bool_iff in H. congruence.
Qed.

Lemma clamp50_Fin (q : Q) :
  clamped (Fin q) (clamp50 (Fin q)) /\ in_range (clamp50 (Fin q)).
Proof.
  unfold clamp50, Math_min, Math_max. cbn [is_nan orb leb].
  destruct (Qle_bool q 50) eqn:Hhi; cbn [is_nan orb leb].
  - destruct (Qle_bool (-50) q) eqn:Hlo; cbn [clamped in_range].
    + apply Qle_bool_iff in Hhi, Hlo. split; [right; left|]; auto.
    + apply Qle_bool_iff in Hhi. apply Qle_bool_false in Hlo.
      split; [left; auto|]. split; lra.
  - apply Qle_bool_false in Hhi.
    replace (Qle_bool (-50) 50) with true by reflexivity.
    cbn [clamped in_range]. split; [right; right; auto|]. split; lra.
Qed.

Lemma clamp50_spec (n : num) :
  n <> NaN -> in_range (clamp50 n) /\ clamped n (clamp50 n).
Proof.
  destruct n as [| |q|]; intros Hn.
  - congruence.
  - rewrite clamp50_NegInf. cbn. split; [split; lra | reflexivity].
  - destruct (clamp50_Fin q); auto.
  - rewrite clamp50_PosInf. cbn. split; [split; lra | reflexivity].
Qed.

(** *** The move handler *)

Lemma onMove_unknown_session (st : MyRoomState) (sessionId : jsstring)
    (msg : option MoveMsg) :
  players st !! sessionId = None -> onMove st sessionId msg = Normal st.
Proof. intros H. unfold onMove. rewrite H. reflexivity. Qed.

Lemma onMove_envKey (st : MyRoomState) (sessionId : jsstring)
    (msg : option MoveMsg) :
  envKey (state_of (onMove st sessionId msg)) = envKey st.
Proof.
  unfold onMove. destruct (players st !! sessionId); [|reflexivity].
  destruct msg; reflexivity.
Qed.

Lemma onMove_other (st : MyRoomState) (sessionId other : jsstring)
    (msg : option MoveMsg) :
  other <> sessionId ->
  players (state_of (onMove st sessionId msg)) !! other = players st !! other.
Proof.
  intros Hne. unfold onMove.
  destruct (players st !! sessionId); [|reflexivity].
  destruct msg; [|reflexivity].
  cbn [state_of players]. rewrite lookup_insert_ne; [reflexivity | congruence].
Qed.

Lemma onMove_size (st : MyRoomState) (sessionId : jsstring)
    (msg : option MoveMsg) :
  size (players (state_of (onMove st sessionId msg))) = size (players st).
Proof.
  unfold onMove. destruct (players st !! sessionId) eqn:Hp; [|reflexivity].
  destruct msg; [|reflexivity].
  cbn [state_of players].
  rewrite <- (insert_delete_id (players st) sessionId p Hp) at 2.
  rewrite <- insert_delete_eq.
  rewrite !map_size_insert_None by apply lookup_delete_eq. reflexivity.
Qed.

(** The entry a move message leaves behind, field by field. *)
Lemma onMove_fields (st : MyRoomState) (sessionId : jsstring)
    (p : PlayerState) (m : MoveMsg) :
  players st !! sessionId = Some p ->
  exists p',
    onMove st sessionId (Some m) =
      Normal {| players := <[sessionId := p']> (players st);
                envKey := envKey st |} /\
    id p' = id p /\ name p' = name p /\ avatarKey p' = avatarKey p /\
    x p' = match msg_x m with VNum v => clamp50 v | _ => x p end /\
    y p' = match msg_y m with VNum v => clamp50 v | _ => y p end /\
    z p' = match msg_z m with VNum v => clamp50 v | _ => z p end /\
    ry p' = match msg_ry m with VNum v => v | _ => ry p end.
Proof.
  intros Hp. unfold onMove. rewrite Hp. eexists. split; [reflexivity|].
  destruct m as [mx my mz mr]. cbn [msg_x msg_y msg_z msg_ry].
  repeat split; destruct mr, mz, my, mx; reflexivity.
Qed.

Lemma clamped_update_intro (field : value) (old : num) :
  clamped_update field old
    (match field with VNum v => clamp50 v | _ => old end).
Proof.
  split.
  - intros n -> Hn. apply clamp50_spec; assumption.
  - intros Hty. destruct field; try reflexivity.
    exfalso. apply Hty. reflexivity.
Qed.

Lemma plain_update_intro (field : value) (old : num) :
  plain_update field old (match field with VNum v => v | _ => old end).
Proof.
  split.
  - intros n ->. reflexivity.
  - intros Hty. destruct field; try reflexivity.
    exfalso. apply Hty. reflexivity.
Qed.

(** C1 (as amended).  A move message for a session that has an entry
    replaces that entry by one in which each of [x], [y], [z] whose
    message field is a number other than NaN holds that number clamped to
    [-50, 50] (so an infinite field is stored as the nearer bound), [ry]
    holds the message field as it is when that is a number, and every
    field whose message field is missing or not a number keeps its old
    value; the fields are treated one by one, and the identity fields, the
    other entries and [envKey] are left alone. *)
Theorem move_partial_update (st : MyRoomState) (sessionId : jsstring)
    (p : PlayerState) (m : MoveMsg) :
  players st !! sessionId = Some p ->
  exists p',
    onMove st sessionId (Some m) =
      Normal {| players := <[sessionId := p']> (players st);
                envKey := envKey st |} /\
    clamped_update (msg_x m) (x p) (x p') /\
    clamped_update (msg_y m) (y p) (y p') /\
    clamped_update (msg_z m) (z p) (z p') /\
    plain_update (msg_ry m) (ry p) (ry p') /\
    id p' = id p /\ name p' = name p /\ avatarKey p' = avatarKey p.
Proof.
  intros Hp.
  destruct (onMove_fields st sessionId p m Hp)
    as (p' & Hrun & Hid & Hname & Hav & Hx & Hy & Hz & Hry).
  exists p'. split; [exact Hrun|].
  rewrite Hx, Hy, Hz, Hry.
  split; [apply clamped_update_intro|].
  split; [apply clamped_update_intro|].
  split; [apply clamped_update_intro|].
  split; [apply plain_update_intro|].
  auto.
Qed.

Lemma move_partial_update_witness :
  players room_of_alice !! alice = Some (spawned alice (wants "whitespace")) /\
  exists p',
    onMove room_of_alice alice (Some (only_x (VNum (Fin 75)))) =
      Normal {| players := <[alice := p']> (players room_of_alice);
                envKey := envKey room_of_alice |} /\
    clamped_update (VNum (Fin 75)) (Fin 0) (x p') /\
    clamped_update VUndefined (Fin 1) (y p') /\
    clamped_update VUndefined (Fin (-2)) (z p') /\
    plain_update VUndefined Math_PI (ry p') /\
    id p' = alice /\ name p' = lit "Guest" /\ avatarKey p' = lit "a1".
Proof.
  assert (H : players room_of_alice !! alice
              = Some (spawned alice (wants "whitespace")))
    by (vm_compute; reflexivity).
  split; [exact H|].
  apply (move_partial_update room_of_alice alice
           (spawned alice (wants "whitespace"))
           (only_x (VNum (Fin 75))) H).
Defined.

(** C1, counterexample: an infinite [x] does not leave the stored value
    alone; the entry of the session held [x = 0] and holds [x = 50]
    after the message. *)
Lemma move_infinite_field_overwrites :
  isFinite PosInf = false /\
  x <$> (players room_of_alice !! alice) = Some (Fin 0) /\
  x <$> (players (state_of (onMove room_of_alice alice
                              (Some (only_x (VNum PosInf))))) !! alice)
    = Some (Fin 50).
Proof. vm_compute. repeat split. Qed.

(** The case the clamp misses: NaN is a number for [typeof] and goes
    through [Math.min] and [Math.max] unchanged, so it is stored. *)
Example move_nan_is_stored :
  x <$> (players (state_of (onMove room_of_alice alice
                              (Some (only_x (VNum NaN))))) !! alice)
    = Some NaN.
Proof. vm_compute. reflexivity. Qed.

(** C10.  A move message of a session without an entry changes nothing
    and raises nothing, whatever its payload (even none at all): the
    handler returns normally with the room state it was given. *)
Theorem move_without_entry_is_noop (st : MyRoomState) (sessionId : jsstring)
    (msg : option MoveMsg) :
  players st !! sessionId = None ->
  onMove st sessionId msg = Normal st /\
  players (state_of (onMove st sessionId msg)) = players st /\
  envKey (state_of (onMove st sessionId msg)) = envKey st.
Proof.
  intros H. rewrite (onMove_unknown_session st sessionId msg H).
  repeat split.
Qed.

Lemma move_without_entry_is_noop_witness :
  players room_of_alice !! bob = None /\
  onMove room_of_alice bob (Some (only_x (VNum (Fin 3)))) =
    Normal room_of_alice /\
  players (state_of (onMove room_of_alice bob (Some (only_x (VNum (Fin 3))))))
    = players room_of_alice /\
  envKey (state_of (onMove room_of_alice bob (Some (only_x (VNum (Fin 3))))))
    = envKey room_of_alice.
Proof.
  assert (H : players room_of_alice !! bob = None)
    by (vm_compute; reflexivity).
  split; [exact H|].
  apply (move_without_entry_is_noop room_of_alice bob
           (Some (only_x (VNum (Fin 3)))) H).
Defined.

(** *** Joining and leaving *)

Lemma size_insert_pos (m : gmap jsstring PlayerState) (k : jsstring)
    (p : PlayerState) :
  Nat.eqb (size (<[k := p]> m)) 0 = false.
Proof.
  apply Nat.eqb_neq. intros H. apply map_size_empty_iff in H.
  exact (insert_non_empty m k p H).
Qed.

Lemma onJoin_occupied (st : MyRoomState) (sessionId : jsstring)
    (options : option JoinOptions) :
  Nat.eqb (size (players (onJoin st sessionId options))) 0 = false.
Proof. unfold onJoin. cbn [players]. apply size_insert_pos. Qed.

Lemma onJoin_entry (st : MyRoomState) (sessionId : jsstring)
    (options : option JoinOptions) :
  players (onJoin st sessionId options) !! sessionId
  = Some (spawned sessionId options).
Proof. unfold onJoin. cbn [players]. apply lookup_insert_eq. Qed.

Lemma onJoin_other (st : MyRoomState) (sessionId other : jsstring)
    (options : option JoinOptions) :
  other <> sessionId ->
  players (onJoin st sessionId options) !! other = players st !! other.
Proof.
  intros Hne. unfold onJoin. cbn [players].
  rewrite lookup_insert_ne; [reflexivity | congruence].
Qed.

Lemma onJoin_envKey_empty (st : MyRoomState) (sessionId : jsstring)
    (options : option JoinOptions) :
  size (players st) = 0%nat ->
  envKey (onJoin st sessionId options) = requested_env options.
Proof.
  intros H. unfold onJoin, requested_env. cbn [envKey]. rewrite H.
  cbn [Nat.eqb]. destruct (options ≫= opt_envKey) as [k|]; cbn [nullish].
  - reflexivity.
  - reflexivity.
Qed.

Lemma onJoin_envKey_occupied (st : MyRoomState) (sessionId : jsstring)
    (options : option JoinOptions) :
  Nat.eqb (size (players st)) 0 = false ->
  envKey (onJoin st sessionId options) = envKey st.
Proof. intros H. unfold onJoin. cbn [envKey]. rewrite H. reflexivity. Qed.

Lemma onLeave_envKey (st : MyRoomState) (sessionId : jsstring)
    (consented : bool) (arrival : option Q) :
  envKey (onLeave st sessionId consented arrival) = envKey st.
Proof.
  unfold onLeave. destruct (allowReconnection 5 arrival); reflexivity.
Qed.

Lemma onLeave_other (st : MyRoomState) (sessionId other : jsstring)
    (consented : bool) (arrival : option Q) :
  other <> sessionId ->
  players (onLeave st sessionId consented arrival) !! other
  = players st !! other.
Proof.
  intros Hne. unfold onLeave.
  destruct (allowReconnection 5 arrival); [reflexivity|]. cbn [players].
  rewrite lookup_delete_ne; [reflexivity | congruence].
Qed.

(** An event of one session leaves the entries of the others alone. *)
Lemma step_other (st : MyRoomState) (e : Event) (sessionId : jsstring) :
  session e <> sessionId ->
  players (step st e) !! sessionId = players st !! sessionId.
Proof.
  destruct e as [s o | s m | s m now | s d | s c o]; cbn [session step];
    intros Hne; try reflexivity.
  - apply onJoin_other. congruence.
  - apply onMove_other. congruence.
  - apply onLeave_other. congruence.
Qed.

Lemma run_other (es : list Event) (st : MyRoomState) (sessionId : jsstring) :
  Forall (fun e => session e <> sessionId) es ->
  players (run st es) !! sessionId = players st !! sessionId.
Proof.
  revert st. induction es as [|e es IH]; intros st Hes; cbn [run].
  - reflexivity.
  - inversion Hes as [|? ? He Hes']; subst.
    rewrite IH by assumption. apply step_other. assumption.
Qed.

(** Only a join into an empty players map writes [envKey]. *)
Lemma step_envKey (st : MyRoomState) (e : Event) :
  joins_find_players st [e] = true -> envKey (step st e) = envKey st.
Proof.
  destruct e as [s o | s m | s m now | s d | s c o];
    cbn [joins_find_players step]; intros H; try reflexivity.
  - apply onJoin_envKey_occupied.
    rewrite andb_true_r in H. apply negb_true_iff in H. exact H.
  - apply onMove_envKey.
  - apply onLeave_envKey.
Qed.

Lemma run_envKey (es : list Event) (st : MyRoomState) :
  joins_find_players st es = true -> envKey (run st es) = envKey st.
Proof.
  revert st. induction es as [|e es IH]; intros st H; cbn [run].
  - reflexivity.
  - cbn [joins_find_players] in H. apply andb_true_iff in H as [He Hes].
    rewrite IH by assumption. apply step_envKey.
    cbn [joins_find_players]. rewrite He. reflexivity.
Qed.

(** C2 (as amended).  A join that finds the players map empty sets
    [envKey] to the requested environment (["whitespace"] when asked for,
    ["office"] otherwise), and [envKey] keeps that value through every
    later join, move, chat, emote and leave for as long as no join finds
    the players map empty again. *)
Theorem envKey_fixed_while_occupied (st : MyRoomState) (sessionId : jsstring)
    (options : option JoinOptions) (es : list Event) :
  size (players st) = 0%nat ->
  joins_find_players (onJoin st sessionId options) es = true ->
  envKey (onJoin st sessionId options) = requested_env options /\
  envKey (run (onJoin st sessionId options) es) = requested_env options.
Proof.
  intros Hempty Hes.
  rewrite (run_envKey es _ Hes).
  split; apply onJoin_envKey_empty; exact Hempty.
Qed.

Lemma envKey_fixed_while_occupied_witness :
  size (players new_MyRoomState) = 0%nat /\
  joins_find_players (onJoin new_MyRoomState alice (wants "whitespace"))
    [EJoin bob (wants "office");
     EMove bob (Some (only_x (VNum (Fin 3))));
     ELeave alice false None;
     EJoin alice (wants "office")] = true /\
  envKey (onJoin new_MyRoomState alice (wants "whitespace"))
    = requested_env (wants "whitespace") /\
  envKey (run (onJoin new_MyRoomState alice (wants "whitespace"))
            [EJoin bob (wants "office");
             EMove bob (Some (only_x (VNum (Fin 3))));
             ELeave alice false None;
             EJoin alice (wants "office")])
    = requested_env (wants "whitespace").
Proof.
  assert (H0 : size (players new_MyRoomState) = 0%nat) by reflexivity.
  assert (H1 : joins_find_players
                 (onJoin new_MyRoomState alice (wants "whitespace"))
                 [EJoin bob (wants "office");
                  EMove bob (Some (only_x (VNum (Fin 3))));
                  ELeave alice false None;
                  EJoin alice (wants "office")] = true)
    by (vm_compute; reflexivity).
  split; [exact H0|]. split; [exact H1|].
  exact (envKey_fixed_while_occupied new_MyRoomState alice
           (wants "whitespace") _ H0 H1).
Defined.

(** C2, counterexample: the room outlives its members, and the next
    join into the emptied room assigns [envKey] a second time.  Alice
    creates the room with ["whitespace"], her reconnection window
    expires, Bob joins asking for ["office"]. *)
Lemma envKey_reassigned_after_room_empties :
  envKey (run new_MyRoomState [EJoin alice (wants "whitespace")])
    = lit "whitespace" /\
  envKey (run new_MyRoomState
            [EJoin alice (wants "whitespace");
             ELeave alice false None;
             EJoin bob (wants "office")])
    = lit "office" /\
  lit "office" <> lit "whitespace".
Proof.
  split; [vm_compute; reflexivity|].
  split; [vm_compute; reflexivity|].
  vm_compute. discriminate.
Qed.

(** C9.  Client A joins an empty room asking for ["whitespace"]: the
    room's [envKey] becomes ["whitespace"]; client B then joins asking
    for ["office"]: [envKey] is still ["whitespace"]. *)
Theorem first_join_picks_environment (st : MyRoomState) (a b : jsstring)
    (optsA optsB : JoinOptions) :
  size (players st) = 0%nat ->
  opt_envKey optsA = Some (lit "whitespace") ->
  opt_envKey optsB = Some (lit "office") ->
  envKey (onJoin st a (Some optsA)) = lit "whitespace" /\
  envKey (onJoin (onJoin st a (Some optsA)) b (Some optsB)) = lit "whitespace".
Proof.
  intros Hempty HA HB.
  assert (H1 : envKey (onJoin st a (Some optsA)) = lit "whitespace").
  { rewrite onJoin_envKey_empty by exact Hempty.
    unfold requested_env. cbn [mbind option_bind]. rewrite HA.
    reflexivity. }
  split; [exact H1|].
  rewrite onJoin_envKey_occupied by apply onJoin_occupied. exact H1.
Qed.

Lemma first_join_picks_environment_witness :
  size (players new_MyRoomState) = 0%nat /\
  envKey (onJoin new_MyRoomState alice (wants "whitespace"))
    = lit "whitespace" /\
  envKey (onJoin (onJoin new_MyRoomState alice (wants "whitespace"))
            bob (wants "office")) = lit "whitespace".
Proof.
  split; [reflexivity|].
  apply (first_join_picks_environment new_MyRoomState alice bob
           {| opt_name := None; opt_avatarKey := None;
              opt_envKey := Some (lit "whitespace") |}
           {| opt_name := None; opt_avatarKey := None;
              opt_envKey := Some (lit "office") |});
    reflexivity.
Defined.

(** *** Reconnection *)

Lemma allowReconnection_in_time (seconds t : Q) :
  t < seconds -> allowReconnection seconds (Some t) = Resolved.
Proof.
  intros H. unfold allowReconnection.
  destruct (Qle_bool seconds t) eqn:E; [|reflexivity].
  apply Qle_bool_iff in E. lra.
Qed.

Lemma allowReconnection_too_late (seconds : Q) (arrival : option Q) :
  too_late seconds arrival -> allowReconnection seconds arrival = Rejected.
Proof.
  destruct arrival as [t|]; cbn; intros H; [|reflexivity].
  apply Qle_bool_iff in H. rewrite H. reflexivity.
Qed.

(** C6.  While a session is away, whatever the other sessions do, its
    entry stays as it was; if it comes back less than five seconds after
    the disconnection, [onLeave] keeps the whole room state, so the entry
    is still in the players map with the same fields.  If it does not,
    [onLeave] deletes the entry, and a later join of that session creates
    a fresh entry at the spawn position [(0, 1, -2)] facing [Math.PI]. *)
Theorem reconnection_window (st : MyRoomState) (sessionId : jsstring)
    (p : PlayerState) (meanwhile later : list Event) (consented : bool)
    (t : Q) (arrival : option Q) (options : option JoinOptions) :
  players st !! sessionId = Some p ->
  Forall (fun e => session e <> sessionId) meanwhile ->
  Forall (fun e => session e <> sessionId) later ->
  t < 5 ->
  too_late 5 arrival ->
  let away := run st meanwhile in
  let resumed := onLeave away sessionId consented (Some t) in
  let removed := onLeave away sessionId consented arrival in
  let rejoined := onJoin (run removed later) sessionId options in
  resumed = away /\
  players resumed !! sessionId = Some p /\
  players removed !! sessionId = None /\
  players (run removed later) !! sessionId = None /\
  players rejoined !! sessionId = Some (spawned sessionId options) /\
  x (spawned sessionId options) = Fin 0 /\
  y (spawned sessionId options) = Fin 1 /\
  z (spawned sessionId options) = Fin (-2) /\
  ry (spawned sessionId options) = Math_PI.
Proof.
  intros Hp Hmean Hlater Ht Hlate away resumed removed rejoined.
  subst resumed removed rejoined. unfold onLeave.
  rewrite (allowReconnection_in_time _ _ Ht).
  rewrite (allowReconnection_too_late _ _ Hlate).
  assert (Haway : players away !! sessionId = Some p).
  { subst away. rewrite run_other by assumption. exact Hp. }
  split; [reflexivity|].
  split; [exact Haway|].
  cbn [players].
  split; [apply lookup_delete_eq|].
  split; [rewrite run_other by assumption; apply lookup_delete_eq|].
  split; [apply onJoin_entry|].
  repeat split.
Qed.

Lemma reconnection_window_witness :
  players room_of_alice !! alice = Some (spawned alice (wants "whitespace")) /\
  1 < 5 /\
  too_late 5 (Some 6) /\
  let away := run room_of_alice [EJoin bob (wants "office")] in
  let resumed := onLeave away alice false (Some 1) in
  let removed := onLeave away alice false (Some 6) in
  let rejoined :=
    onJoin (run removed [EMove bob (Some (only_x (VNum (Fin 3))))])
      alice (wants "office") in
  resumed = away /\
  players resumed !! alice = Some (spawned alice (wants "whitespace")) /\
  players removed !! alice = None /\
  players (run removed [EMove bob (Some (only_x (VNum (Fin 3))))]) !! alice
    = None /\
  players rejoined !! alice = Some (spawned alice (wants "office")) /\
  x (spawned alice (wants "office")) = Fin 0 /\
  y (spawned alice (wants "office")) = Fin 1 /\
  z (spawned alice (wants "office")) = Fin (-2) /\
  ry (spawned alice (wants "office")) = Math_PI.
Proof.
  assert (Hp : players room_of_alice !! alice
               = Some (spawned alice (wants "whitespace")))
    by (vm_compute; reflexivity).
  assert (Ht : 1 < 5) by reflexivity.
  assert (Hlate : too_late 5 (Some 6)) by (vm_compute; discriminate).
  split; [exact Hp|]. split; [exact Ht|]. split; [exact Hlate|].
  apply (reconnection_window room_of_alice alice _
           [EJoin bob (wants "office")]
           [EMove bob (Some (only_x (VNum (Fin 3))))]
           false 1 (Some 6) (wants "office") Hp).
  - repeat constructor; vm_compute; discriminate.
  - repeat constructor; vm_compute; discriminate.
  - exact Ht.
  - exact Hlate.
Defined.

(** *** Chat *)

Lemma length_slice0 (n : nat) (s : jsstring) :
  length (slice0 n s) = Nat.min n (length s).
Proof. unfold slice0. apply length_firstn. Qed.

Lemma trimStart_id (s : jsstring) :
  is_space (hd 0%N s) = false -> trimStart s = s.
Proof.
  destruct s as [|c s]; cbn [hd trimStart]; intros H; [reflexivity|].
  rewrite H. reflexivity.
Qed.

Lemma hd_rev (s : jsstring) : hd 0%N (rev s) = List.last s 0%N.
Proof.
  induction s as [|c s IH] using rev_ind; [reflexivity|].
  rewrite rev_app_distr, last_last. reflexivity.
Qed.

(** A text that neither starts nor ends with white space is its own
    trimmed text. *)
Lemma trim_id (s : jsstring) :
  is_space (hd 0%N s) = false -> is_space (List.last s 0%N) = false ->
  trim s = s.
Proof.
  intros Hhd Hlast. unfold trim, trimEnd.
  rewrite (trimStart_id s Hhd).
  rewrite trimStart_id by (rewrite hd_rev; exact Hlast).
  apply rev_involutive.
Qed.

(** C7 (as amended).  The chat handler trims the text first.  When the
    trimmed text is empty nothing is broadcast; otherwise exactly one
    payload is broadcast, carrying the sender's session id, the name of
    its entry (["Guest"] when it has none), the time stamp, and the first
    500 code units of the trimmed text, so that the broadcast text has
    [min 500 n] characters where [n] is the length of the trimmed text:
    a message whose trimmed text has 600 characters is broadcast with
    exactly 500. *)
Theorem chat_broadcast (st : MyRoomState) (sessionId : jsstring)
    (msg : option ChatMsg) (now : Z) :
  let trimmed := trim (nullish (msg ≫= text) (lit EmptyString)) in
  match trimmed with
  | [] => onChat st sessionId msg now = []
  | _ :: _ =>
      exists sent,
        onChat st sessionId msg now =
          [BChat sessionId
             (nullish (name <$> players st !! sessionId) (lit "Guest"))
             sent now] /\
        sent = firstn 500 trimmed /\
        length sent = Nat.min 500 (length trimmed) /\
        (length sent <= 500)%nat
  end.
Proof.
  intros trimmed. unfold onChat. fold trimmed.
  destruct trimmed as [|c rest] eqn:E; [reflexivity|].
  exists (slice0 500 (c :: rest)).
  split; [reflexivity|]. split; [reflexivity|].
  rewrite length_slice0. split; [reflexivity | lia].
Qed.

(** A text of 600 code units without white space at either end is
    broadcast cut to 500. *)
Lemma chat_600_plain (st : MyRoomState) (sessionId : jsstring)
    (t : jsstring) (now : Z) :
  length t = 600%nat ->
  is_space (hd 0%N t) = false -> is_space (List.last t 0%N) = false ->
  exists sent,
    onChat st sessionId (Some {| text := Some t |}) now =
      [BChat sessionId
         (nullish (name <$> players st !! sessionId) (lit "Guest"))
         sent now] /\
    sent = firstn 500 t /\ length sent = 500%nat.
Proof.
  intros Hlen Hhd Hlast. unfold onChat.
  cbn [mbind option_bind text nullish].
  rewrite (trim_id t Hhd Hlast).
  destruct t as [|c rest]; [discriminate|].
  exists (slice0 500 (c :: rest)).
  split; [reflexivity|]. split; [reflexivity|].
  rewrite length_slice0, Hlen. reflexivity.
Qed.

(** C7, counterexample: a message of 600 characters, the letter [a]
    followed by 599 spaces, is broadcast as the single letter. *)
Lemma chat_600_padded_not_500 :
  length (97%N :: repeat 32%N 599) = 600%nat /\
  onChat new_MyRoomState alice
    (Some {| text := Some (97%N :: repeat 32%N 599) |}) 0
  = [BChat alice (lit "Guest") [97%N] 0] /\
  length [97%N] <> 500%nat.
Proof.
  split; [vm_compute; reflexivity|].
  split; [vm_compute; reflexivity|].
  cbn. lia.
Qed.

End RoomProps.

(** ** The collision index *)

Module CollisionProps.
Import Collision CollisionSpec.

Lemma leb_Fin (a b : Q) : leb (Fin a) (Fin b) = true <-> a <= b.
Proof. apply Qle_bool_iff. Qed.

Lemma isBlocked_loop_exists (colliderBoxes : list Box3) (p : Vector3) :
  isBlocked_loop colliderBoxes p = true <->
  exists b, In b colliderBoxes /\
            containsPoint (expandByScalar b radius) p = true.
Proof.
  induction colliderBoxes as [|b rest IH]; cbn [isBlocked_loop In].
  - split; [discriminate | intros (b & [] & _)].
  - destruct (containsPoint (expandByScalar b radius) p) eqn:Hb.
    + split; [intros _; exists b; auto | reflexivity].
    + rewrite IH. split.
      * intros (b' & Hin & Hc). exists b'. auto.
      * intros (b' & [-> | Hin] & Hc); [congruence | exists b'; auto].
Qed.

(** *** One axis of the sphere test *)

(** The clamped coordinate of a finite point in a non-empty interval. *)
Lemma clamp_Fin (p lo hi : Q) :
  lo <= hi ->
  exists c, clamp (Fin p) (Fin lo) (Fin hi) = Fin c /\
            ((p < lo /\ c = lo) \/ (lo <= p <= hi /\ c = p) \/
             (hi < p /\ c = hi)).
Proof.
  intros Hord. unfold clamp, Math_min, Math_max. cbn [is_nan orb leb].
  destruct (Qle_bool p hi) eqn:Hhi; cbn [is_nan orb leb].
  - apply Qle_bool_iff in Hhi.
    destruct (Qle_bool lo p) eqn:Hlo.
    + apply Qle_bool_iff in Hlo. exists p. split; [reflexivity|].
      right; left; auto.
    + apply RoomProps.Qle_bool_false in Hlo. exists lo.
      split; [reflexivity|]. left; auto.
  - apply RoomProps.Qle_bool_false in Hhi.
    apply Qle_bool_iff in Hord. rewrite Hord. exists hi.
    split; [reflexivity|]. right; right; auto.
Qed.

Lemma square_bound (d r s : Q) :
  0 <= r -> 0 <= s -> d * d + s <= r * r -> - r <= d <= r.
Proof.
  intros Hr Hs H. split.
  - destruct (Qlt_le_dec d (- r)) as [Hlt|]; [exfalso | assumption].
    assert (Hpos : 0 < (- r - d) * (r - d))
      by (apply Qmult_lt_0_compat; lra).
    lra.
  - destruct (Qlt_le_dec r d) as [Hlt|]; [exfalso | assumption].
    assert (Hpos : 0 < (d - r) * (d + r))
      by (apply Qmult_lt_0_compat; lra).
    lra.
Qed.

(** If the squared distance from [p] to the interval is at most [r * r]
    then [p] is in the interval widened by [r]. *)
Lemma axis_within (p lo hi c r s : Q) :
  lo <= hi -> 0 <= r -> 0 <= s ->
  ((p < lo /\ c = lo) \/ (lo <= p <= hi /\ c = p) \/ (hi < p /\ c = hi)) ->
  (c - p) * (c - p) + s <= r * r ->
  lo + - r <= p <= hi + r.
Proof.
  intros Hord Hr Hs Hc Hd.
  pose proof (square_bound (c - p) r s Hr Hs Hd) as [H1 H2].
  destruct Hc as [[H ->] | [[[Ha Hb] ->] | [H ->]]]; split; lra.
Qed.

Lemma square_nonneg (d : Q) : 0 <= d * d.
Proof.
  destruct (Qlt_le_dec d 0) as [Hneg | Hpos].
  - assert (H : 0 <= (- d) * (- d)) by (apply Qmult_le_0_compat; lra).
    lra.
  - apply Qmult_le_0_compat; assumption.
Qed.

(** The square of the distance along one axis: finite for a finite
    coordinate, NaN or infinite otherwise. *)
Lemma axis_square (v : num) (lo hi : Q) :
  lo <= hi ->
  let d := sub (clamp v (Fin lo) (Fin hi)) v in
  match v with
  | Fin p =>
      exists c, mul d d = Fin ((c - p) * (c - p)) /\
                ((p < lo /\ c = lo) \/ (lo <= p <= hi /\ c = p) \/
                 (hi < p /\ c = hi))
  | NaN => mul d d = NaN
  | _ => mul d d = PosInf
  end.
Proof.
  intros Hord d. subst d. destruct v as [| |p|].
  - reflexivity.
  - unfold clamp, Math_min, Math_max. cbn [is_nan orb leb].
    destruct (Qle_bool lo hi); reflexivity.
  - destruct (clamp_Fin p lo hi Hord) as (c & -> & Hc).
    exists c. split; [reflexivity | exact Hc].
  - unfold clamp, Math_min, Math_max. cbn [is_nan orb leb].
    destruct (Qle_bool lo hi); reflexivity.
Qed.

Lemma sum_of_squares_le (a b c : num) (R : Q) :
  a <> NegInf -> b <> NegInf -> c <> NegInf ->
  leb (add (add a b) c) (Fin R) = true ->
  exists qa qb qc, a = Fin qa /\ b = Fin qb /\ c = Fin qc /\
                   qa + qb + qc <= R.
Proof.
  intros Ha Hb Hc H.
  destruct a as [| |qa|]; try congruence; try discriminate;
    destruct b as [| |qb|]; try congruence; try discriminate;
    destruct c as [| |qc|]; try congruence; try discriminate.
  exists qa, qb, qc. repeat split. apply leb_Fin in H. exact H.
Qed.

Lemma axis_square_not_NegInf (v : num) (lo hi : Q) :
  lo <= hi ->
  mul (sub (clamp v (Fin lo) (Fin hi)) v) (sub (clamp v (Fin lo) (Fin hi)) v)
  <> NegInf.
Proof.
  intros Hord. pose proof (axis_square v lo hi Hord) as H. cbv zeta in H.
  destruct v as [| |p|]; try (rewrite H; discriminate).
  destruct H as (c & -> & _). discriminate.
Qed.

(** From a finite square back to the coordinate. *)
Lemma axis_square_Fin (v : num) (lo hi q : Q) :
  lo <= hi ->
  mul (sub (clamp v (Fin lo) (Fin hi)) v) (sub (clamp v (Fin lo) (Fin hi)) v)
  = Fin q ->
  exists p c, v = Fin p /\ q = (c - p) * (c - p) /\
              ((p < lo /\ c = lo) \/ (lo <= p <= hi /\ c = p) \/
               (hi < p /\ c = hi)).
Proof.
  intros Hord Hq. pose proof (axis_square v lo hi Hord) as H. cbv zeta in H.
  destruct v as [| |p|]; try (rewrite H in Hq; discriminate).
  destruct H as (c & Hc & Hrel). rewrite Hc in Hq.
  exists p, c. split; [reflexivity|]. split; [congruence | exact Hrel].
Qed.

Lemma finite_ordered_inv (b : Box3) :
  finite_ordered b = true ->
  exists lx ly lz hx hy hz,
    b = {| min := mkVector3 (Fin lx) (Fin ly) (Fin lz);
           max := mkVector3 (Fin hx) (Fin hy) (Fin hz) |} /\
    lx <= hx /\ ly <= hy /\ lz <= hz.
Proof.
  destruct b as [[lx ly lz] [hx hy hz]]. unfold finite_ordered.
  cbn [min max x y z]. intros H.
  repeat (apply andb_true_iff in H as [H ?]).
  destruct lx as [| |lx|]; try discriminate.
  destruct ly as [| |ly|]; try discriminate.
  destruct lz as [| |lz|]; try discriminate.
  destruct hx as [| |hx|]; try discriminate.
  destruct hy as [| |hy|]; try discriminate.
  destruct hz as [| |hz|]; try discriminate.
  exists lx, ly, lz, hx, hy, hz. split; [reflexivity|].
  repeat split; apply leb_Fin; assumption.
Qed.

(** A non-empty finite box that meets the sphere contains its centre
    once expanded by the radius. *)
Lemma sphere_implies_expanded (b : Box3) (c : Vector3) (r : Q) :
  0 <= r -> finite_ordered b = true ->
  intersectsSphere b c (Fin r) = true ->
  containsPoint (expandByScalar b (Fin r)) c = true.
Proof.
  intros Hr Hb Hs.
  destruct (finite_ordered_inv b Hb)
    as (lx & ly & lz & hx & hy & hz & -> & Hx & Hy & Hz).
  destruct c as [cx cy cz].
  unfold intersectsSphere, distanceToSquared, clampPoint in Hs.
  cbn [min max x y z mul] in Hs.
  apply sum_of_squares_le in Hs;
    try (apply axis_square_not_NegInf; assumption).
  destruct Hs as (qa & qb & qc & Ha & Hb' & Hc & Hsum).
  apply axis_square_Fin in Ha as (px & kx & -> & -> & Hkx); [|assumption].
  apply axis_square_Fin in Hb' as (py & ky & -> & -> & Hky); [|assumption].
  apply axis_square_Fin in Hc as (pz & kz & -> & -> & Hkz); [|assumption].
  pose proof (square_nonneg (kx - px)) as Sx.
  pose proof (square_nonneg (ky - py)) as Sy.
  pose proof (square_nonneg (kz - pz)) as Sz.
  assert (Ax : lx + - r <= px <= hx + r).
  { apply (axis_within px lx hx kx r
             ((ky - py) * (ky - py) + (kz - pz) * (kz - pz)));
      auto; lra. }
  assert (Ay : ly + - r <= py <= hy + r).
  { apply (axis_within py ly hy ky r
             ((kx - px) * (kx - px) + (kz - pz) * (kz - pz)));
      auto; lra. }
  assert (Az : lz + - r <= pz <= hz + r).
  { apply (axis_within pz lz hz kz r
             ((kx - px) * (kx - px) + (ky - py) * (ky - py)));
      auto; lra. }
  unfold containsPoint, expandByScalar, addScalar, geb.
  cbn [min max x y z add neg leb].
  destruct Ax as [Ax1 Ax2], Ay as [Ay1 Ay2], Az as [Az1 Az2].
  apply Qle_bool_iff in Ax1, Ax2, Ay1, Ay2, Az1, Az2.
  rewrite Ax1, Ax2, Ay1, Ay2, Az1, Az2. reflexivity.
Qed.

Lemma radius_nonneg : 0 <= 9 # 20.
Proof. discriminate. Qed.

Lemma sphere_spec_implies_blocked (colliderBoxes : list Box3)
    (nextPos : Vector3) :
  forallb finite_ordered colliderBoxes = true ->
  isBlocked_sphere_spec colliderBoxes nextPos = true ->
  isBlocked colliderBoxes nextPos = true.
Proof.
  intros Hfin Hs. unfold isBlocked_sphere_spec in Hs.
  apply existsb_exists in Hs as (b & Hin & Hb).
  unfold isBlocked. cbv zeta. apply isBlocked_loop_exists. exists b.
  split; [exact Hin|].
  apply (sphere_implies_expanded b (probe nextPos) (9 # 20) radius_nonneg).
  - rewrite forallb_forall in Hfin. apply Hfin. exact Hin.
  - exact Hb.
Qed.

(** C3 (as amended).  [isBlocked(p)] is true exactly when the probe
    point, which takes its x and z from [p] and has the fixed height
    [PLAYER_GROUND_Y + 1.0] whatever the y of [p], lies inside one of the
    collision boxes expanded by the entity radius on every axis.  Every
    non-empty finite box that meets the sphere of that radius centred at
    the probe point blocks it; the converse does not hold, the expanded
    box reaching further than the sphere near the edges and corners. *)
Theorem isBlocked_expanded_boxes (colliderBoxes : list Box3)
    (nextPos : Vector3) :
  (isBlocked colliderBoxes nextPos = true <->
   exists b, In b colliderBoxes /\
     containsPoint (expandByScalar b radius)
       {| x := x nextPos; y := add PLAYER_GROUND_Y (Fin 1); z := z nextPos |}
     = true) /\
  (forall y', isBlocked colliderBoxes
                {| x := x nextPos; y := y'; z := z nextPos |}
              = isBlocked colliderBoxes nextPos) /\
  (forallb finite_ordered colliderBoxes = true ->
   isBlocked_sphere_spec colliderBoxes nextPos = true ->
   isBlocked colliderBoxes nextPos = true).
Proof.
  split; [|split].
  - unfold isBlocked. cbv zeta. apply isBlocked_loop_exists.
  - intros y'. reflexivity.
  - apply sphere_spec_implies_blocked.
Qed.

Lemma isBlocked_expanded_boxes_witness :
  forallb finite_ordered [pillar] = true /\
  isBlocked_sphere_spec [pillar] beside_pillar = true /\
  isBlocked [pillar] beside_pillar = true.
Proof.
  assert (H1 : forallb finite_ordered [pillar] = true)
    by (vm_compute; reflexivity).
  assert (H2 : isBlocked_sphere_spec [pillar] beside_pillar = true)
    by (vm_compute; reflexivity).
  split; [exact H1|]. split; [exact H2|].
  exact (proj2 (proj2 (isBlocked_expanded_boxes [pillar] beside_pillar))
           H1 H2).
Defined.

(** C3, counterexample: near a vertical edge of a box the expanded box
    contains the probe point, while the sphere around the probe point
    does not reach the box.  The box is [0,1] x [0,3] x [0,1] and the
    entity stands at x = z = 1.4: 0.4 away along each horizontal axis,
    hence at distance 0.4 * sqrt 2 > 0.45 from the edge. *)
Lemma isBlocked_not_sphere_test :
  isBlocked [pillar] off_corner = true /\
  isBlocked_sphere_spec [pillar] off_corner = false.
Proof. vm_compute. split; reflexivity. Qed.

(** *** Building the boxes *)

Section BuildProps.

Context {Attributes Matrix4 : Type}.
Variable computeBoundingBox : Attributes -> option Box3.
Variable applyMatrix4 : Box3 -> Matrix4 -> Box3.

Local Abbreviation Node := (Object3D Attributes Matrix4).
Local Abbreviation visit := (visit computeBoundingBox applyMatrix4).
Local Abbreviation worldBox := (worldBox computeBoundingBox applyMatrix4).
Local Abbreviation worldBoxes :=
  (worldBoxes computeBoundingBox applyMatrix4).
Local Abbreviation buildColliderBoxes :=
  (buildColliderBoxes computeBoundingBox applyMatrix4).

(** One node either adds its world box, as computed, or adds nothing;
    the scratch box does not flow into the array. *)
Lemma visit_boxes (s : BuildState) (o : Node) :
  boxes (visit s o) =
  boxes s ++ List.filter finite_min_x
               (match worldBox o with Some b => [b] | None => [] end).
Proof.
  unfold Collision.visit, Collision.worldBox.
  destruct (isMesh o); cbn [negb]; [|symmetry; apply app_nil_r].
  destruct (geometry o) as [g|]; [|symmetry; apply app_nil_r].
  destruct (ensured_boundingBox computeBoundingBox g) as [bb|]; [|symmetry; apply app_nil_r].
  cbn [List.filter].
  destruct (finite_min_x (applyMatrix4 bb (matrixWorld o)));
    cbn [boxes]; [reflexivity | symmetry; apply app_nil_r].
Qed.

Lemma fold_visit_boxes (nodes : list Node) (s : BuildState) :
  boxes (fold_left visit nodes s) =
  boxes s ++ List.filter finite_min_x (worldBoxes nodes).
Proof.
  revert s. induction nodes as [|o nodes IH]; intros s; cbn [fold_left].
  - symmetry. apply app_nil_r.
  - rewrite IH, visit_boxes. unfold Collision.worldBoxes.
    cbn [flat_map]. rewrite List.filter_app, app_assoc. reflexivity.
Qed.

(** The array of collider boxes: the world boxes with a finite [min.x],
    exactly as computed. *)
Lemma buildColliderBoxes_worldBoxes (nodes : list Node) :
  buildColliderBoxes nodes = List.filter finite_min_x (worldBoxes nodes).
Proof. unfold Collision.buildColliderBoxes. apply fold_visit_boxes. Qed.

Lemma In_worldBoxes (nodes : list Node) (b : Box3) :
  In b (worldBoxes nodes) <-> exists o, In o nodes /\ worldBox o = Some b.
Proof.
  unfold Collision.worldBoxes. rewrite in_flat_map. split.
  - intros (o & Ho & Hb). exists o. split; [exact Ho|].
    destruct (worldBox o) as [b'|]; [|destruct Hb].
    destruct Hb as [-> | []]. reflexivity.
  - intros (o & Ho & Hb). exists o. split; [exact Ho|].
    rewrite Hb. left. reflexivity.
Qed.

Lemma In_buildColliderBoxes (nodes : list Node) (b : Box3) :
  In b (buildColliderBoxes nodes) <->
  isFinite (x (min b)) = true /\
  exists o, In o nodes /\ worldBox o = Some b.
Proof.
  rewrite buildColliderBoxes_worldBoxes, List.filter_In, In_worldBoxes.
  unfold finite_min_x. tauto.
Qed.

End BuildProps.

(** The shrink is applied to the scratch box after its copy has been
    pushed: no stored box is the shrunk box of its mesh unless shrinking
    changes nothing. *)
Lemma stored_box_is_world_box {Attributes Matrix4 : Type}
    (computeBoundingBox : Attributes -> option Box3)
    (applyMatrix4 : Box3 -> Matrix4 -> Box3)
    (nodes : list (Object3D Attributes Matrix4)) (b : Box3) :
  In b (buildColliderBoxes computeBoundingBox applyMatrix4 nodes) ->
  exists o, In o nodes /\
            worldBox computeBoundingBox applyMatrix4 o = Some b.
Proof. intros H. apply In_buildColliderBoxes in H as [_ H]. exact H. Qed.

(** C4.  In every build the array of collider boxes holds the world
    boxes with a finite [min.x] exactly as they were computed.  At a mesh
    whose world box is the unit cube, the box that is stored is the unit
    cube itself, with x and z running from 0 to 1, and not the cube
    shrunk by 0.05 on x and z, which only the scratch box becomes after
    its copy was pushed. *)
Theorem collider_box_stored_unshrunk :
  (forall (Attributes Matrix4 : Type)
          (computeBoundingBox : Attributes -> option Box3)
          (applyMatrix4 : Box3 -> Matrix4 -> Box3)
          (nodes : list (Object3D Attributes Matrix4)),
     buildColliderBoxes computeBoundingBox applyMatrix4 nodes
     = List.filter finite_min_x
         (worldBoxes computeBoundingBox applyMatrix4 nodes)) /\
  buildColliderBoxes no_vertices identity_transform [mesh_of unit_cube]
    = [unit_cube] /\
  tempBox (fold_left (visit no_vertices identity_transform)
             [mesh_of unit_cube] {| tempBox := new_Box3; boxes := [] |})
    = shrink_xz unit_cube /\
  shrink_xz unit_cube
    = {| min := mkVector3 (Fin (0 + (1 # 20))) (Fin 0) (Fin (0 + (1 # 20)));
         max := mkVector3 (Fin (1 + - (1 # 20))) (Fin 1)
                  (Fin (1 + - (1 # 20))) |} /\
  x (min unit_cube) = Fin 0 /\ x (max unit_cube) = Fin 1 /\
  z (min unit_cube) = Fin 0 /\ z (max unit_cube) = Fin 1.
Proof.
  split.
  - intros Attributes Matrix4 computeBoundingBox applyMatrix4 nodes.
    apply buildColliderBoxes_worldBoxes.
  - repeat split.
Qed.

(** C5 (as amended).  Every collision box stored by a build is the
    world box of a mesh of the collider scene and has a finite [min.x];
    a mesh whose world box has a [min.x] that is not finite, such as the
    empty box, is left out.  When the world boxes are regular (the empty
    box, or finite corners with [min <= max]), every stored box has
    finite extents with [min <= max] on each axis; a box that is flat on
    an axis is stored like any other. *)
Theorem collider_boxes_finite {Attributes Matrix4 : Type}
    (computeBoundingBox : Attributes -> option Box3)
    (applyMatrix4 : Box3 -> Matrix4 -> Box3)
    (nodes : list (Object3D Attributes Matrix4)) :
  (forall b,
     In b (buildColliderBoxes computeBoundingBox applyMatrix4 nodes) ->
     isFinite (x (min b)) = true /\
     exists o, In o nodes /\
               worldBox computeBoundingBox applyMatrix4 o = Some b) /\
  (forall o b,
     In o nodes -> worldBox computeBoundingBox applyMatrix4 o = Some b ->
     isFinite (x (min b)) = false ->
     ~ In b (buildColliderBoxes computeBoundingBox applyMatrix4 nodes)) /\
  ((forall o b,
      In o nodes -> worldBox computeBoundingBox applyMatrix4 o = Some b ->
      regular b) ->
   forall b,
     In b (buildColliderBoxes computeBoundingBox applyMatrix4 nodes) ->
     finite_ordered b = true).
Proof.
  split; [|split].
  - intros b Hb. apply In_buildColliderBoxes in Hb. exact Hb.
  - intros o b _ _ Hinf Hb. apply In_buildColliderBoxes in Hb as [Hfin _].
    congruence.
  - intros Hreg b Hb.
    apply In_buildColliderBoxes in Hb as [Hfin (o & Ho & Hw)].
    destruct (Hreg o b Ho Hw) as [-> | H]; [discriminate | exact H].
Qed.

Lemma collider_boxes_finite_witness :
  (forall o b,
     In o [group_node; mesh_of new_Box3; mesh_of flat_square] ->
     worldBox no_vertices identity_transform o = Some b -> regular b) /\
  In flat_square
    (buildColliderBoxes no_vertices identity_transform
       [group_node; mesh_of new_Box3; mesh_of flat_square]) /\
  finite_ordered flat_square = true.
Proof.
  assert (Hreg : forall o b,
             In o [group_node; mesh_of new_Box3; mesh_of flat_square] ->
             worldBox no_vertices identity_transform o = Some b ->
             regular b).
  { intros o b [<- | [<- | [<- | []]]] Hw; cbn in Hw;
      try discriminate; injection Hw as <-.
    - left. reflexivity.
    - right. reflexivity. }
  assert (Hin : In flat_square
                  (buildColliderBoxes no_vertices identity_transform
                     [group_node; mesh_of new_Box3; mesh_of flat_square]))
    by (left; reflexivity).
  split; [exact Hreg|]. split; [exact Hin|].
  exact (proj2 (proj2 (collider_boxes_finite no_vertices identity_transform
                         [group_node; mesh_of new_Box3; mesh_of flat_square]))
           Hreg flat_square Hin).
Defined.

(** C5, counterexample: the collider of a flat floor, a mesh whose world
    box has [min.y = max.y], is stored, although its extent along y is
    not strictly positive. *)
Lemma flat_collider_box_is_stored :
  buildColliderBoxes no_vertices identity_transform [mesh_of flat_square]
    = [flat_square] /\
  strictly_ordered flat_square = false /\
  y (min flat_square) = y (max flat_square).
Proof. repeat split. Qed.

End CollisionProps.

(** ** The animation state machine *)

Module AnimProps.
Import Anim.

Lemma playWave_active (rig : PlayerRig) :
  emoteActive rig = true -> playWave rig = rig.
Proof. intros H. unfold playWave. rewrite H. reflexivity. Qed.

Lemma setBaseAnim_active (rig : PlayerRig) (next : BaseKey) :
  emoteActive rig = true -> setBaseAnim rig next = rig.
Proof. intros H. unfold setBaseAnim. rewrite H. reflexivity. Qed.

Lemma finished_other (rig : PlayerRig) (action : AnimKey) :
  action <> wave -> finished rig action = rig.
Proof.
  intros H. unfold finished.
  assert (Hone : forall r, onFinished r action = r).
  { intros r. unfold onFinished.
    destruct action; try reflexivity. congruence. }
  induction (listeners rig) as [|n IH]; [reflexivity|].
  change (onFinished (Nat.iter n (fun r => onFinished r action) rig) action
          = rig).
  rewrite Hone. exact IH.
Qed.

(** While the wave plays, nothing but the completion of the wave clip
    changes the rig. *)
Lemma react_active (rig : PlayerRig) (i : Input) :
  emoteActive rig = true -> i <> Finished wave -> react rig i = rig.
Proof.
  intros H Hi. destruct i as [next | | action]; cbn [react].
  - apply setBaseAnim_active. exact H.
  - apply playWave_active. exact H.
  - apply finished_other. congruence.
Qed.

Lemma fold_react_active (inputs : list Input) (rig : PlayerRig) :
  emoteActive rig = true ->
  Forall (fun i => i <> Finished wave) inputs ->
  fold_left react inputs rig = rig.
Proof.
  intros H Hall. induction Hall as [|i inputs Hi _ IH]; cbn [fold_left].
  - reflexivity.
  - rewrite (react_active rig i H Hi). exact IH.
Qed.

(** Each registered closure clears the emote, selects [idle] and
    removes itself. *)
Lemma onFinished_wave (r : PlayerRig) :
  emoteActive (onFinished r wave) = false /\
  current (onFinished r wave) = idle /\
  listeners (onFinished r wave) = pred (listeners r).
Proof. repeat split. Qed.

Lemma iter_onFinished_wave (n : nat) (rig : PlayerRig) :
  emoteActive (Nat.iter (S n) (fun r => onFinished r wave) rig) = false /\
  current (Nat.iter (S n) (fun r => onFinished r wave) rig) = idle /\
  listeners (Nat.iter (S n) (fun r => onFinished r wave) rig)
    = (listeners rig - S n)%nat.
Proof.
  induction n as [|n IH].
  - cbn. repeat split. lia.
  - change (Nat.iter (S (S n)) (fun r => onFinished r wave) rig)
      with (onFinished (Nat.iter (S n) (fun r => onFinished r wave) rig) wave).
    destruct IH as (_ & _ & Hl).
    set (r' := Nat.iter (S n) (fun r => onFinished r wave) rig) in *.
    destruct (onFinished_wave r') as (He & Hc & Hn).
    rewrite He, Hc, Hn, Hl. repeat split. lia.
Qed.

(** C8.  A wave triggered on a rig that is not waving enters the wave
    state.  From then on a second trigger, a request for the idle or walk
    animation, or the completion of another clip leaves the rig exactly
    as it is, in any number and order.  When the mixer reports the wave
    clip finished, the rig leaves the wave state and is back in [idle],
    with no completion listener left. *)
Theorem wave_state_machine (rig : PlayerRig) (inputs : list Input)
    (next : BaseKey) :
  emoteActive rig = false ->
  Forall (fun i => i <> Finished wave) inputs ->
  let waving := playWave rig in
  emoteActive waving = true /\ shown waving = wave /\
  playWave waving = waving /\
  setBaseAnim waving next = waving /\
  fold_left react inputs waving = waving /\
  emoteActive (finished waving wave) = false /\
  current (finished waving wave) = idle /\
  shown (finished waving wave) = idle /\
  listeners (finished waving wave) = 0%nat.
Proof.
  intros Hidle Hin waving.
  assert (Hact : emoteActive waving = true).
  { subst waving. unfold playWave. rewrite Hidle. reflexivity. }
  assert (Hl : listeners waving = S (listeners rig)).
  { subst waving. unfold playWave. rewrite Hidle. reflexivity. }
  split; [exact Hact|].
  split; [unfold shown; rewrite Hact; reflexivity|].
  split; [apply playWave_active; exact Hact|].
  split; [apply setBaseAnim_active; exact Hact|].
  split; [apply fold_react_active; assumption|].
  unfold finished, shown. rewrite Hl.
  destruct (iter_onFinished_wave (listeners rig) waving) as (He & Hc & Hn).
  rewrite He, Hc, Hn, Hl. repeat split. lia.
Qed.

Lemma wave_state_machine_witness :
  emoteActive new_rig = false /\
  let waving := playWave new_rig in
  emoteActive waving = true /\ shown waving = wave /\
  playWave waving = waving /\
  setBaseAnim waving base_walk = waving /\
  fold_left react [Wave; Base base_walk; Finished idle; Base base_idle]
    waving = waving /\
  emoteActive (finished waving wave) = false /\
  current (finished waving wave) = idle /\
  shown (finished waving wave) = idle /\
  listeners (finished waving wave) = 0%nat.
Proof.
  split; [reflexivity|].
  apply (wave_state_machine new_rig
           [Wave; Base base_walk; Finished idle; Base base_idle] base_walk).
  - reflexivity.
  - repeat constructor; discriminate.
Defined.

End AnimProps.

(** ** Invariants and algebra of the room *)

Module RoomMore.
Import Room RoomSpec RoomInv.

Lemma onMove_moved (st : MyRoomState) (sessionId : jsstring)
    (p : PlayerState) (m : MoveMsg) :
  players st !! sessionId = Some p ->
  onMove st sessionId (Some m) =
    Normal {| players := <[sessionId := moved p m]> (players st);
              envKey := envKey st |}.
Proof.
  intros Hp. unfold onMove. rewrite Hp. do 3 f_equal.
  destruct m as [mx my mz mr], p as [pi pn pa px py pz pr].
  unfold moved. cbn [msg_x msg_y msg_z msg_ry].
  destruct mr, mz, my, mx; reflexivity.
Qed.

(** The players map after any move message. *)
Lemma onMove_players (st : MyRoomState) (sessionId : jsstring)
    (msg : option MoveMsg) :
  players (state_of (onMove st sessionId msg)) =
  match msg, players st !! sessionId with
  | Some m, Some p => <[sessionId := moved p m]> (players st)
  | _, _ => players st
  end.
Proof.
  destruct (players st !! sessionId) as [p|] eqn:Hp.
  - destruct msg as [m|].
    + rewrite (onMove_moved st sessionId p m Hp). reflexivity.
    + unfold onMove. rewrite Hp. reflexivity.
  - rewrite (RoomProps.onMove_unknown_session st sessionId msg Hp).
    destruct msg; reflexivity.
Qed.

Lemma onJoin_players (st : MyRoomState) (sessionId : jsstring)
    (options : option JoinOptions) :
  players (onJoin st sessionId options)
  = <[sessionId := spawned sessionId options]> (players st).
Proof. reflexivity. Qed.

Lemma onLeave_players (st : MyRoomState) (sessionId : jsstring)
    (consented : bool) (arrival : option Q) :
  players (onLeave st sessionId consented arrival) =
  match allowReconnection 5 arrival with
  | Resolved => players st
  | Rejected => delete sessionId (players st)
  end.
Proof. unfold onLeave. destruct (allowReconnection 5 arrival); reflexivity. Qed.

(** *** Properties of the entries that every run keeps *)

Section Entries.

Variable P : jsstring -> PlayerState -> Prop.
Variable ok : Event -> bool.

Hypothesis P_spawned : forall s o, P s (spawned s o).
Hypothesis P_moved :
  forall s m k p, ok (EMove s (Some m)) = true -> P k p -> P k (moved p m).

Lemma step_entries (st : MyRoomState) (e : Event) :
  ok e = true ->
  (forall k p, players st !! k = Some p -> P k p) ->
  forall k p, players (step st e) !! k = Some p -> P k p.
Proof.
  intros Hok Hst k p.
  destruct e as [s o | s msg | s msg now | s d | s c a]; cbn [step].
  - rewrite onJoin_players.
    destruct (decide (s = k)) as [-> | Hne].
    + rewrite lookup_insert_eq. intros [= <-]. apply P_spawned.
    + rewrite lookup_insert_ne by exact Hne. apply Hst.
  - rewrite onMove_players.
    destruct msg as [m|]; [|apply Hst].
    destruct (players st !! s) as [q|] eqn:Hq; [|apply Hst].
    destruct (decide (s = k)) as [-> | Hne].
    + rewrite lookup_insert_eq. intros [= <-].
      apply (P_moved k m); [exact Hok | apply Hst; exact Hq].
    + rewrite lookup_insert_ne by exact Hne. apply Hst.
  - apply Hst.
  - apply Hst.
  - rewrite onLeave_players.
    destruct (allowReconnection 5 a); [apply Hst|].
    destruct (decide (s = k)) as [-> | Hne].
    + rewrite lookup_delete_eq. discriminate.
    + rewrite lookup_delete_ne by exact Hne. apply Hst.
Qed.

Lemma run_entries (es : list Event) (st : MyRoomState) :
  forallb ok es = true ->
  (forall k p, players st !! k = Some p -> P k p) ->
  forall k p, players (run st es) !! k = Some p -> P k p.
Proof.
  revert st. induction es as [|e es IH]; intros st Hok Hst; cbn [run].
  - exact Hst.
  - cbn [forallb] in Hok. apply andb_true_iff in Hok as [He Hes].
    apply IH; [exact Hes|]. apply step_entries; assumption.
Qed.

End Entries.

Lemma forallb_always {A : Type} (l : list A) :
  forallb (fun _ => true) l = true.
Proof. induction l; [reflexivity | assumption]. Qed.

Lemma new_room_no_entry (k : jsstring) (p : PlayerState) :
  players new_MyRoomState !! k = Some p -> False.
Proof. cbn [new_MyRoomState players]. rewrite lookup_empty. discriminate. Qed.

(** X1.  In every state the room reaches from its creation, each entry
    of the players map is stored under the session id held in its own
    [id] field. *)
Theorem entries_keyed_by_id (es : list Event) :
  keyed_by_id (run new_MyRoomState es).
Proof.
  unfold keyed_by_id.
  apply (run_entries (fun k p => id p = k) (fun _ => true)).
  - reflexivity.
  - intros s m k p _ H. exact H.
  - apply forallb_always.
  - intros k p H. destruct (new_room_no_entry k p H).
Qed.

Lemma length_slice0_le (n : nat) (s : jsstring) :
  (length (slice0 n s) <= n)%nat.
Proof. rewrite RoomProps.length_slice0. lia. Qed.

(** X2.  In every state the room reaches from its creation, the name of
    each entry has at most 32 characters, however long the name a client
    asked for. *)
Theorem names_at_most_32 (es : list Event) :
  names_capped (run new_MyRoomState es).
Proof.
  unfold names_capped.
  apply (run_entries (fun _ p => (length (name p) <= 32)%nat)
           (fun _ => true)).
  - intros s o. cbn [spawned name]. apply length_slice0_le.
  - intros s m k p _ H. exact H.
  - apply forallb_always.
  - intros k p H. destruct (new_room_no_entry k p H).
Qed.

Lemma step_known_env (st : MyRoomState) (e : Event) :
  known_env (envKey st) -> known_env (envKey (step st e)).
Proof.
  intros H. destruct e as [s o | s msg | s msg now | s d | s c a];
    cbn [step]; try exact H.
  - unfold onJoin. cbn [envKey].
    destruct (Nat.eqb (size (players st)) 0); [|exact H].
    destruct (decide _); [right | left]; reflexivity.
  - rewrite RoomProps.onMove_envKey. exact H.
  - rewrite RoomProps.onLeave_envKey. exact H.
Qed.

(** X3.  In every state the room reaches from its creation, [envKey] is
    ["office"] or ["whitespace"], whatever environment names the joining
    clients send. *)
Theorem envKey_is_known (es : list Event) :
  known_env (envKey (run new_MyRoomState es)).
Proof.
  assert (H : forall st, known_env (envKey st) ->
                         known_env (envKey (run st es))).
  { induction es as [|e es IH]; intros st Hst; cbn [run]; [exact Hst|].
    apply IH. apply step_known_env. exact Hst. }
  apply H. left. reflexivity.
Qed.

Lemma in_range_spawn :
  in_range (Fin 0) /\ in_range (Fin 1) /\ in_range (Fin (-2)).
Proof. cbn. repeat split; lra. Qed.

Lemma clamped_field_in_range (field : value) (old : num) :
  nan_free field = true -> in_range old ->
  in_range (match field with VNum v => clamp50 v | _ => old end).
Proof.
  intros Hfree Hold. destruct field as [| | b | v | s |]; try exact Hold.
  apply RoomProps.clamp50_spec. intros ->. discriminate.
Qed.

(** X4.  As long as no move message carries NaN at [x], [y] or [z],
    every position stored in the room lies in the cube [-50, 50]^3, in
    every state reached from the creation of the room: the spawn position
    is inside and the move handler clamps every number, infinite ones
    included. *)
Theorem positions_stay_in_range (es : list Event) :
  forallb position_nan_free es = true ->
  coords_in_range (run new_MyRoomState es).
Proof.
  intros Hes. unfold coords_in_range.
  apply (run_entries
           (fun _ p => in_range (x p) /\ in_range (y p) /\ in_range (z p))
           position_nan_free).
  - intros s o. exact in_range_spawn.
  - intros s m k p Hok (Hx & Hy & Hz). cbn [position_nan_free] in Hok.
    apply andb_true_iff in Hok as [Hok Hmz].
    apply andb_true_iff in Hok as [Hmx Hmy].
    cbn [moved x y z].
    repeat split; apply clamped_field_in_range; assumption.
  - exact Hes.
  - intros k p H. destruct (new_room_no_entry k p H).
Qed.

Lemma positions_stay_in_range_witness :
  forallb position_nan_free
    [EJoin alice (wants "office");
     EMove alice (Some (full_move (Fin 75) NegInf (Fin 3) NaN));
     EJoin bob None] = true /\
  coords_in_range
    (run new_MyRoomState
       [EJoin alice (wants "office");
        EMove alice (Some (full_move (Fin 75) NegInf (Fin 3) NaN));
        EJoin bob None]).
Proof.
  assert (H : forallb position_nan_free
                [EJoin alice (wants "office");
                 EMove alice (Some (full_move (Fin 75) NegInf (Fin 3) NaN));
                 EJoin bob None] = true) by reflexivity.
  split; [exact H|].
  exact (positions_stay_in_range _ H).
Defined.

(** *** Moves *)

Lemma room_eq (a b : MyRoomState) :
  players a = players b -> envKey a = envKey b -> a = b.
Proof. destruct a, b. cbn. intros -> ->. reflexivity. Qed.

Lemma moved_twice (p : PlayerState) (m : MoveMsg) :
  moved (moved p m) m = moved p m.
Proof.
  unfold moved. cbn [id name avatarKey x y z ry].
  f_equal; match goal with |- context [match ?f with _ => _ end] =>
                             destruct f; reflexivity end.
Qed.

(** X5.  A move message is idempotent: handling the same message of the
    same session twice in a row ends exactly as handling it once, with
    the same room state and the same completion. *)
Theorem move_idempotent (st : MyRoomState) (sessionId : jsstring)
    (msg : option MoveMsg) :
  onMove (state_of (onMove st sessionId msg)) sessionId msg
  = onMove st sessionId msg.
Proof.
  destruct (players st !! sessionId) as [p|] eqn:Hp.
  - destruct msg as [m|].
    + rewrite (onMove_moved st sessionId p m Hp). cbn [state_of].
      rewrite (onMove_moved _ sessionId (moved p m) m)
        by (cbn [players]; apply lookup_insert_eq).
      cbn [players envKey]. rewrite insert_insert_eq, moved_twice.
      reflexivity.
    + unfold onMove at 2 3. rewrite Hp. cbn [state_of].
      unfold onMove. rewrite Hp. reflexivity.
  - rewrite (RoomProps.onMove_unknown_session st sessionId msg Hp).
    cbn [state_of].
    apply RoomProps.onMove_unknown_session. exact Hp.
Qed.

(** X6.  Move messages of two different sessions commute: the room state
    after both does not depend on the order in which they are handled. *)
Theorem moves_of_two_sessions_commute (st : MyRoomState) (s1 s2 : jsstring)
    (m1 m2 : option MoveMsg) :
  s1 <> s2 ->
  state_of (onMove (state_of (onMove st s1 m1)) s2 m2)
  = state_of (onMove (state_of (onMove st s2 m2)) s1 m1).
Proof.
  intros Hne. apply room_eq.
  - rewrite (onMove_players (state_of (onMove st s1 m1)) s2 m2).
    rewrite (onMove_players (state_of (onMove st s2 m2)) s1 m1).
    rewrite (RoomProps.onMove_other st s1 s2 m1) by congruence.
    rewrite (RoomProps.onMove_other st s2 s1 m2) by congruence.
    rewrite !onMove_players.
    destruct m1 as [m1|], m2 as [m2|];
      destruct (players st !! s1) as [p1|];
      destruct (players st !! s2) as [p2|]; try reflexivity.
    apply insert_insert_ne. congruence.
  - rewrite !RoomProps.onMove_envKey. reflexivity.
Qed.

Lemma moves_of_two_sessions_commute_witness :
  alice <> bob /\
  state_of (onMove (state_of (onMove (onJoin room_of_alice bob None) alice
                                (Some (only_x (VNum (Fin 3))))))
              bob (Some (only_x (VNum (Fin 7)))))
  = state_of (onMove (state_of (onMove (onJoin room_of_alice bob None) bob
                                  (Some (only_x (VNum (Fin 7))))))
                alice (Some (only_x (VNum (Fin 3))))).
Proof.
  assert (H : alice <> bob) by (vm_compute; discriminate).
  split; [exact H|].
  exact (moves_of_two_sessions_commute _ alice bob _ _ H).
Defined.

(** *** Where entries come from and what stays in them *)

(** What one event does to the entry of a session that is not joining. *)
Lemma step_keeps (st : MyRoomState) (e : Event) (k : jsstring) :
  joins k e = false ->
  players (step st e) !! k = None \/
  exists p, players st !! k = Some p /\
    (players (step st e) !! k = Some p \/
     exists m, players (step st e) !! k = Some (moved p m)).
Proof.
  intros Hj. destruct (decide (session e = k)) as [Hs | Hs].
  - destruct e as [s o | s msg | s msg now | s d | s c a];
      cbn [session] in Hs; subst s; cbn [step].
    + cbn [joins] in Hj. rewrite bool_decide_eq_false in Hj. congruence.
    + rewrite onMove_players.
      destruct (players st !! k) as [p|] eqn:Hp.
      * right. exists p. split; [reflexivity|].
        destruct msg as [m|]; [right; exists m | left; exact Hp].
        apply lookup_insert_eq.
      * left. destruct msg; exact Hp.
    + destruct (players st !! k) as [p|] eqn:Hp; [right; exists p|left]; auto.
    + destruct (players st !! k) as [p|] eqn:Hp; [right; exists p|left]; auto.
    + rewrite onLeave_players. destruct (allowReconnection 5 a).
      * destruct (players st !! k) as [p|] eqn:Hp;
          [right; exists p|left]; auto.
      * left. apply lookup_delete_eq.
  - rewrite (RoomProps.step_other st e k Hs).
    destruct (players st !! k) as [p|] eqn:Hp; [right; exists p|left]; auto.
Qed.

Lemma run_no_join_none (es : list Event) (st : MyRoomState) (k : jsstring) :
  existsb (joins k) es = false ->
  players st !! k = None -> players (run st es) !! k = None.
Proof.
  revert st. induction es as [|e es IH]; intros st Hes Hk; cbn [run].
  - exact Hk.
  - cbn [existsb] in Hes. apply orb_false_iff in Hes as [He Hes].
    apply IH; [exact Hes|].
    destruct (step_keeps st e k He) as [H | (p & Hp & _)];
      [exact H | congruence].
Qed.

(** X7.  Entries come from joins only: a session that has no entry and
    sends no join request has no entry afterwards, whatever moves, chats,
    emotes and leaves it or the other sessions send. *)
Theorem no_entry_without_join (st : MyRoomState) (es : list Event)
    (k : jsstring) :
  players st !! k = None ->
  existsb (joins k) es = false ->
  players (run st es) !! k = None.
Proof. intros Hk Hes. apply run_no_join_none; assumption. Qed.

Lemma no_entry_without_join_witness :
  players room_of_alice !! bob = None /\
  existsb (joins bob)
    [EMove bob (Some (full_move (Fin 1) (Fin 2) (Fin 3) (Fin 4)));
     EChat bob None 0; ELeave bob true None; EJoin alice None] = false /\
  players (run room_of_alice
             [EMove bob (Some (full_move (Fin 1) (Fin 2) (Fin 3) (Fin 4)));
              EChat bob None 0; ELeave bob true None; EJoin alice None])
    !! bob = None.
Proof.
  assert (H1 : players room_of_alice !! bob = None)
    by (vm_compute; reflexivity).
  assert (H2 : existsb (joins bob)
                 [EMove bob
                    (Some (full_move (Fin 1) (Fin 2) (Fin 3) (Fin 4)));
                  EChat bob None 0; ELeave bob true None;
                  EJoin alice None] = false)
    by (vm_compute; reflexivity).
  split; [exact H1|]. split; [exact H2|].
  exact (no_entry_without_join room_of_alice _ bob H1 H2).
Defined.

(** X8.  The identity of an entry is fixed at the join: as long as its
    session does not join again, its [id], [name] and [avatarKey] stay
    what they were, no message being able to change them. *)
Theorem identity_fixed_between_joins (es : list Event) (st : MyRoomState)
    (k : jsstring) (p p' : PlayerState) :
  players st !! k = Some p ->
  existsb (joins k) es = false ->
  players (run st es) !! k = Some p' ->
  id p' = id p /\ name p' = name p /\ avatarKey p' = avatarKey p.
Proof.
  revert st p. induction es as [|e es IH]; intros st p Hp Hes Hp';
    cbn [run] in Hp'.
  - rewrite Hp in Hp'. injection Hp' as <-. auto.
  - cbn [existsb] in Hes. apply orb_false_iff in Hes as [He Hes].
    destruct (step_keeps st e k He) as [H | (q & Hq & [H | (m & H)])].
    + rewrite (run_no_join_none es _ k Hes H) in Hp'. discriminate.
    + rewrite Hp in Hq. injection Hq as <-.
      exact (IH _ p H Hes Hp').
    + rewrite Hp in Hq. injection Hq as <-.
      exact (IH _ (moved p m) H Hes Hp').
Qed.

Lemma identity_fixed_between_joins_witness :
  players room_of_alice !! alice = Some (spawned alice (wants "whitespace")) /\
  existsb (joins alice)
    [EMove alice (Some (full_move (Fin 1) (Fin 2) (Fin 3) (Fin 4)));
     EJoin bob None] = false /\
  players (run room_of_alice
             [EMove alice (Some (full_move (Fin 1) (Fin 2) (Fin 3) (Fin 4)));
              EJoin bob None]) !! alice
    = Some (moved (spawned alice (wants "whitespace"))
              (full_move (Fin 1) (Fin 2) (Fin 3) (Fin 4))) /\
  id (moved (spawned alice (wants "whitespace"))
        (full_move (Fin 1) (Fin 2) (Fin 3) (Fin 4))) = alice /\
  name (moved (spawned alice (wants "whitespace"))
          (full_move (Fin 1) (Fin 2) (Fin 3) (Fin 4))) = lit "Guest" /\
  avatarKey (moved (spawned alice (wants "whitespace"))
               (full_move (Fin 1) (Fin 2) (Fin 3) (Fin 4))) = lit "a1".
Proof.
  assert (H1 : players room_of_alice !! alice
               = Some (spawned alice (wants "whitespace")))
    by (vm_compute; reflexivity).
  assert (H2 : existsb (joins alice)
                 [EMove alice
                    (Some (full_move (Fin 1) (Fin 2) (Fin 3) (Fin 4)));
                  EJoin bob None] = false)
    by (vm_compute; reflexivity).
  assert (H3 : players (run room_of_alice
                 [EMove alice
                    (Some (full_move (Fin 1) (Fin 2) (Fin 3) (Fin 4)));
                  EJoin bob None]) !! alice
               = Some (moved (spawned alice (wants "whitespace"))
                         (full_move (Fin 1) (Fin 2) (Fin 3) (Fin 4))))
    by (vm_compute; reflexivity).
  split; [exact H1|]. split; [exact H2|]. split; [exact H3|].
  exact (identity_fixed_between_joins _ room_of_alice alice _ _ H1 H2 H3).
Defined.

(** *** Joining and leaving *)

(** X9.  The expiry of the reconnection window of a session that has no
    entry changes nothing, and so does a leave that ends in a
    reconnection. *)
Theorem leave_without_entry_is_noop (st : MyRoomState)
    (sessionId : jsstring) (consented : bool) (arrival : option Q) :
  players st !! sessionId = None ->
  onLeave st sessionId consented arrival = st.
Proof.
  intros H. apply room_eq.
  - rewrite onLeave_players. destruct (allowReconnection 5 arrival);
      [reflexivity | apply delete_id; exact H].
  - apply RoomProps.onLeave_envKey.
Qed.

Lemma leave_without_entry_is_noop_witness :
  players room_of_alice !! bob = None /\
  onLeave room_of_alice bob false None = room_of_alice.
Proof.
  assert (H : players room_of_alice !! bob = None)
    by (vm_compute; reflexivity).
  split; [exact H|].
  exact (leave_without_entry_is_noop room_of_alice bob false None H).
Defined.

(** X10.  A join followed by the expiry of the session's reconnection
    window is a round trip on the players map: when the session had no
    entry before the join, the map is back to what it was; only [envKey]
    may have been set by the join. *)
Theorem join_then_expiry_restores_players (st : MyRoomState)
    (sessionId : jsstring) (options : option JoinOptions)
    (consented : bool) (arrival : option Q) :
  players st !! sessionId = None ->
  too_late 5 arrival ->
  players (onLeave (onJoin st sessionId options) sessionId consented arrival)
  = players st.
Proof.
  intros Hnone Hlate. rewrite onLeave_players.
  rewrite (RoomProps.allowReconnection_too_late 5 arrival Hlate).
  rewrite onJoin_players. apply delete_insert_id. exact Hnone.
Qed.

Lemma join_then_expiry_restores_players_witness :
  players room_of_alice !! bob = None /\
  too_late 5 None /\
  players (onLeave (onJoin room_of_alice bob (wants "office")) bob false None)
  = players room_of_alice.
Proof.
  assert (H : players room_of_alice !! bob = None)
    by (vm_compute; reflexivity).
  split; [exact H|]. split; [exact I|].
  exact (join_then_expiry_restores_players room_of_alice bob
           (wants "office") false None H I).
Defined.

(** X11.  A join never duplicates a session: it adds one entry when the
    session has none and replaces the entry, keeping the number of
    entries, when it has one; either way the session's entry is the
    freshly spawned one and no other entry is touched. *)
Theorem join_adds_at_most_one (st : MyRoomState) (sessionId : jsstring)
    (options : option JoinOptions) :
  size (players (onJoin st sessionId options))
  = match players st !! sessionId with
    | Some _ => size (players st)
    | None => S (size (players st))
    end /\
  players (onJoin st sessionId options) !! sessionId
  = Some (spawned sessionId options) /\
  forall other, other <> sessionId ->
    players (onJoin st sessionId options) !! other = players st !! other.
Proof.
  split; [|split].
  - rewrite onJoin_players, map_size_insert.
    destruct (players st !! sessionId); reflexivity.
  - apply RoomProps.onJoin_entry.
  - intros other Hne. apply RoomProps.onJoin_other. exact Hne.
Qed.
End RoomMore.

(** ** More on the animation state machine *)

Module AnimMore.
Import Anim ClientSpec.

Lemma finished_wave_one (r : PlayerRig) :
  listeners r = 1%nat -> finished r wave = onFinished r wave.
Proof. intros H. unfold finished. rewrite H. reflexivity. Qed.

Lemma finished_none (r : PlayerRig) (a : AnimKey) :
  listeners r = 0%nat -> finished r a = r.
Proof. intros H. unfold finished. rewrite H. reflexivity. Qed.

Lemma rig_ok_inv (r : PlayerRig) :
  rig_ok r = true <->
  listeners r = (if emoteActive r then 1 else 0)%nat /\ current r <> wave.
Proof.
  unfold rig_ok. rewrite andb_true_iff, Nat.eqb_eq, negb_true_iff.
  split; intros [H1 H2]; (split; [exact H1|]).
  - intros E. rewrite E in H2. discriminate.
  - destruct (current r); try reflexivity. congruence.
Qed.

Lemma react_ok (r : PlayerRig) (i : Input) :
  rig_ok r = true -> rig_ok (react r i) = true.
Proof.
  intros H. pose proof H as Hok. apply rig_ok_inv in H as [Hl Hc].
  destruct (emoteActive r) eqn:He.
  - destruct i as [next | | a]; cbn [react].
    + rewrite AnimProps.setBaseAnim_active by exact He. exact Hok.
    + rewrite AnimProps.playWave_active by exact He. exact Hok.
    + destruct a; try (rewrite AnimProps.finished_other by discriminate;
                       exact Hok).
      rewrite (finished_wave_one r Hl). apply rig_ok_inv.
      cbn [onFinished AnimKey_eqb negb listeners emoteActive current].
      rewrite Hl. split; [reflexivity | discriminate].
  - destruct i as [next | | a]; cbn [react].
    + unfold setBaseAnim. rewrite He.
      destruct (AnimKey_eqb (current r) (key_of next)); [exact Hok|].
      apply rig_ok_inv. cbn [listeners emoteActive current].
      split; [exact Hl | destruct next; discriminate].
    + unfold playWave. rewrite He. apply rig_ok_inv.
      cbn [listeners emoteActive current]. rewrite Hl. auto.
    + rewrite (finished_none r a Hl). exact Hok.
Qed.

Lemma fold_react_ok (inputs : list Input) (r : PlayerRig) :
  rig_ok r = true -> rig_ok (fold_left react inputs r) = true.
Proof.
  revert r. induction inputs as [|i inputs IH]; intros r Hr;
    cbn [fold_left]; [exact Hr|].
  apply IH. apply react_ok. exact Hr.
Qed.

(** X12.  Whatever happens to a rig after [ensureRig] created it, in any
    number and order (requests for idle or walk, wave triggers, clips
    finishing), it has exactly one completion listener registered while
    the wave plays and none otherwise, so listeners never pile up; its
    [current] animation is idle or walk, never wave; and the wave clip
    finishing always leaves it not waving. *)
Theorem rig_keeps_one_listener (inputs : list Input) :
  let r := fold_left react inputs new_rig in
  listeners r = (if emoteActive r then 1 else 0)%nat /\
  (current r = idle \/ current r = walk) /\
  emoteActive (finished r wave) = false.
Proof.
  cbv zeta.
  pose proof (fold_react_ok inputs new_rig eq_refl) as H.
  apply rig_ok_inv in H as [Hl Hc]. split; [exact Hl|]. split.
  - destruct (current (fold_left react inputs new_rig)); auto. congruence.
  - destruct (emoteActive (fold_left react inputs new_rig)) eqn:He.
    + rewrite (finished_wave_one _ Hl). reflexivity.
    + rewrite (finished_none _ wave Hl). exact He.
Qed.

(** X13.  Asking for the base animation a rig already has changes
    nothing, not even the calls made on the actions, so the per-frame
    request does not restart the clip: [setBaseAnim] is idempotent. *)
Theorem setBaseAnim_idempotent (r : PlayerRig) (next : BaseKey) :
  setBaseAnim (setBaseAnim r next) next = setBaseAnim r next.
Proof.
  unfold setBaseAnim at 2 3.
  destruct (emoteActive r) eqn:He.
  - apply AnimProps.setBaseAnim_active. exact He.
  - destruct (AnimKey_eqb (current r) (key_of next)) eqn:Hc.
    + unfold setBaseAnim. rewrite He, Hc. reflexivity.
    + unfold setBaseAnim. cbn [emoteActive current].
      destruct next; reflexivity.
Qed.

End AnimMore.

(** ** More on the collision index *)

Module CollisionMore.
Import Collision CollisionSpec ClientSpec.

Lemma isBlocked_loop_app (b1 b2 : list Box3) (p : Vector3) :
  isBlocked_loop (b1 ++ b2) p = isBlocked_loop b1 p || isBlocked_loop b2 p.
Proof.
  induction b1 as [|b b1 IH]; cbn [isBlocked_loop app]; [reflexivity|].
  destruct (containsPoint (expandByScalar b radius) p); [reflexivity|].
  exact IH.
Qed.

(** X14.  Without collider boxes (before an environment is loaded, or
    while it is being replaced) no position is blocked, and the boxes
    block independently of each other: a position is blocked by a list of
    boxes exactly when one part of the list blocks it, so adding boxes
    never unblocks a position and their order does not matter. *)
Theorem isBlocked_by_parts (b1 b2 : list Box3) (nextPos : Vector3) :
  isBlocked [] nextPos = false /\
  isBlocked (b1 ++ b2) nextPos
  = isBlocked b1 nextPos || isBlocked b2 nextPos /\
  isBlocked (b2 ++ b1) nextPos = isBlocked (b1 ++ b2) nextPos.
Proof.
  unfold isBlocked. cbv zeta. rewrite !isBlocked_loop_app.
  split; [reflexivity|]. split; [reflexivity|]. apply orb_comm.
Qed.

Lemma below_probe_misses (b : Box3) (p : Vector3) :
  below_probe b = true ->
  containsPoint (expandByScalar b radius) (probe p) = false.
Proof.
  unfold below_probe. intros H.
  assert (Hy : leb (y (probe p)) (y (max (expandByScalar b radius))) = false).
  { cbn [probe expandByScalar addScalar y max PLAYER_GROUND_Y radius].
    destruct (y (max b)) as [| |q|]; try discriminate; [reflexivity|].
    cbn [ltb leb negb] in H. apply negb_true_iff in H.
    apply RoomProps.Qle_bool_false in H.
    cbn [add leb]. apply RoomProps.Qle_bool_false.
    assert (E : (1 # 2) + 1 == 3 # 2) by reflexivity.
    rewrite E. lra. }
  unfold containsPoint. rewrite Hy.
  rewrite andb_false_r. reflexivity.
Qed.

(** X15.  Only boxes that reach the height band around the probe can
    block: a box whose top lies below 1.05 (a floor slab, a kerb) blocks
    no position at all, because the probe is taken at the fixed height
    1.5 and the box is expanded by 0.45 only. *)
Theorem low_boxes_never_block (colliderBoxes : list Box3)
    (nextPos : Vector3) :
  forallb below_probe colliderBoxes = true ->
  isBlocked colliderBoxes nextPos = false.
Proof.
  intros H. unfold isBlocked. cbv zeta.
  induction colliderBoxes as [|b rest IH]; [reflexivity|].
  cbn [forallb] in H. apply andb_true_iff in H as [Hb Hrest].
  cbn [isBlocked_loop]. rewrite (below_probe_misses b nextPos Hb).
  apply IH. exact Hrest.
Qed.

Lemma low_boxes_never_block_witness :
  forallb below_probe [unit_cube; flat_square] = true /\
  isBlocked [unit_cube; flat_square] beside_pillar = false.
Proof.
  assert (H : forallb below_probe [unit_cube; flat_square] = true)
    by reflexivity.
  split; [exact H|].
  exact (low_boxes_never_block [unit_cube; flat_square] beside_pillar H).
Defined.

Lemma leb_widen_up (a b : num) (r : Q) :
  0 <= r -> leb a b = true -> leb a (add b (Fin r)) = true.
Proof.
  intros Hr H. destruct a as [| |p|], b as [| |q|]; try discriminate;
    try reflexivity.
  cbn [add leb] in *. apply Qle_bool_iff in H. apply Qle_bool_iff. lra.
Qed.

Lemma leb_widen_down (a b : num) (r : Q) :
  0 <= r -> leb a b = true -> leb (add a (neg (Fin r))) b = true.
Proof.
  intros Hr H. destruct a as [| |p|], b as [| |q|]; try discriminate;
    try reflexivity.
  cbn [add neg leb] in *. apply Qle_bool_iff in H. apply Qle_bool_iff. lra.
Qed.

Lemma containsPoint_expand (b : Box3) (p : Vector3) (r : Q) :
  0 <= r -> containsPoint b p = true ->
  containsPoint (expandByScalar b (Fin r)) p = true.
Proof.
  intros Hr H. unfold containsPoint, geb in *.
  repeat (apply andb_true_iff in H as [H ?]).
  cbn [expandByScalar addScalar min max x y z].
  repeat (apply andb_true_iff; split);
    auto using leb_widen_up, leb_widen_down.
Qed.

(** X16.  A collider always blocks its own footprint: when the probe
    point of a position lies inside one of the collider boxes as stored,
    the position is blocked. *)
Theorem inside_a_box_is_blocked (colliderBoxes : list Box3) (b : Box3)
    (nextPos : Vector3) :
  In b colliderBoxes ->
  containsPoint b (probe nextPos) = true ->
  isBlocked colliderBoxes nextPos = true.
Proof.
  intros Hin Hc. unfold isBlocked. cbv zeta.
  apply CollisionProps.isBlocked_loop_exists. exists b.
  split; [exact Hin|].
  apply (containsPoint_expand b (probe nextPos) (9 # 20)
           CollisionProps.radius_nonneg Hc).
Qed.

Lemma inside_a_box_is_blocked_witness :
  In pillar [unit_cube; pillar] /\
  containsPoint pillar
    (probe (mkVector3 (Fin (1 # 2)) (Fin 0) (Fin (1 # 2)))) = true /\
  isBlocked [unit_cube; pillar]
    (mkVector3 (Fin (1 # 2)) (Fin 0) (Fin (1 # 2))) = true.
Proof.
  assert (H1 : In pillar [unit_cube; pillar]) by (right; left; reflexivity).
  assert (H2 : containsPoint pillar
                 (probe (mkVector3 (Fin (1 # 2)) (Fin 0) (Fin (1 # 2))))
               = true) by reflexivity.
  split; [exact H1|]. split; [exact H2|].
  exact (inside_a_box_is_blocked _ pillar _ H1 H2).
Defined.

(** X17.  The traversal that builds the collider boxes treats every node
    on its own: the boxes of a scene are the boxes of its first nodes
    followed by the boxes of the remaining ones, in visiting order, the
    scratch box carrying nothing from one mesh to the next; and there are
    at most as many boxes as nodes. *)
Theorem build_node_by_node {Attributes Matrix4 : Type}
    (computeBoundingBox : Attributes -> option Box3)
    (applyMatrix4 : Box3 -> Matrix4 -> Box3)
    (nodes1 nodes2 : list (Object3D Attributes Matrix4)) :
  buildColliderBoxes computeBoundingBox applyMatrix4 (nodes1 ++ nodes2)
  = buildColliderBoxes computeBoundingBox applyMatrix4 nodes1
    ++ buildColliderBoxes computeBoundingBox applyMatrix4 nodes2 /\
  (List.length (buildColliderBoxes computeBoundingBox applyMatrix4 nodes1)
   <= List.length nodes1)%nat.
Proof.
  rewrite !CollisionProps.buildColliderBoxes_worldBoxes. split.
  - unfold worldBoxes. rewrite flat_map_app, List.filter_app. reflexivity.
  - etransitivity; [apply List.filter_length_le|].
    unfold worldBoxes. induction nodes1 as [|o nodes1 IH]; [reflexivity|].
    cbn [flat_map]. rewrite List.length_app. cbn [List.length].
    destruct (worldBox computeBoundingBox applyMatrix4 o);
      cbn [List.length]; lia.
Qed.

End CollisionMore.

(** ** The client *)

Module ClientProps.
Import Collision Anim Client ClientSpec.

(** *** Trimming *)

Lemma trimStart_split (s : jsstring) :
  exists w, s = w ++ trimStart s /\ forallb is_space w = true.
Proof.
  induction s as [|c s (w & Hs & Hw)]; cbn [trimStart].
  - exists []. split; reflexivity.
  - destruct (is_space c) eqn:Hc.
    + exists (c :: w). cbn [app forallb]. rewrite Hc, Hw.
      split; [f_equal; exact Hs | reflexivity].
    + exists []. split; reflexivity.
Qed.

Lemma trimStart_head (s : jsstring) : is_space (hd 0%N (trimStart s)) = false.
Proof.
  induction s as [|c s IH]; cbn [trimStart]; [reflexivity|].
  destruct (is_space c) eqn:Hc; [exact IH | exact Hc].
Qed.

Lemma forallb_rev {A : Type} (f : A -> bool) (l : list A) :
  forallb f (rev l) = forallb f l.
Proof.
  induction l as [|a l IH]; [reflexivity|].
  cbn [rev forallb]. rewrite forallb_app, IH. cbn [forallb].
  rewrite andb_true_r. apply andb_comm.
Qed.

Lemma trimEnd_split (s : jsstring) :
  exists w, s = trimEnd s ++ w /\ forallb is_space w = true.
Proof.
  destruct (trimStart_split (rev s)) as (w & Hs & Hw).
  exists (rev w). split.
  - unfold trimEnd. rewrite <- rev_app_distr, <- Hs, rev_involutive.
    reflexivity.
  - rewrite forallb_rev. exact Hw.
Qed.

Lemma trimEnd_last (s : jsstring) :
  is_space (List.last (trimEnd s) 0%N) = false.
Proof.
  unfold trimEnd. rewrite <- RoomProps.hd_rev, rev_involutive.
  apply trimStart_head.
Qed.

Lemma trimEnd_head (s : jsstring) :
  is_space (hd 0%N s) = false -> is_space (hd 0%N (trimEnd s)) = false.
Proof.
  intros H. destruct (trimEnd_split s) as (w & Hs & _).
  destruct (trimEnd s) as [|c t]; [reflexivity|].
  rewrite Hs in H. exact H.
Qed.

Lemma trim_head (s : jsstring) : is_space (hd 0%N (trim s)) = false.
Proof. unfold trim. apply trimEnd_head, trimStart_head. Qed.

Lemma trim_last (s : jsstring) : is_space (List.last (trim s) 0%N) = false.
Proof. unfold trim. apply trimEnd_last. Qed.

Lemma trim_idempotent (s : jsstring) : trim (trim s) = trim s.
Proof. apply RoomProps.trim_id; [apply trim_head | apply trim_last]. Qed.

(** X18.  Chat from the input box to the room: a blank input is not
    sent; any other input is sent trimmed, the server never drops it, and
    it broadcasts exactly one message that carries the first 500
    characters of the trimmed input, a text that is not empty and does
    not begin with white space. *)
Theorem chat_from_input_to_broadcast (st : Room.MyRoomState)
    (sessionId chatInput : jsstring) (now : Z) :
  match sendChat true chatInput with
  | (None, box) => trim chatInput = [] /\ box = chatInput
  | (Some msg, box) =>
      box = [] /\
      Room.onChat st sessionId (Some msg) now =
        [Room.BChat sessionId
           (Room.nullish (Room.name <$> Room.players st !! sessionId)
              (lit "Guest"))
           (firstn 500 (trim chatInput)) now] /\
      firstn 500 (trim chatInput) <> [] /\
      is_space (hd 0%N (firstn 500 (trim chatInput))) = false
  end.
Proof.
  unfold sendChat. cbn [negb].
  destruct (trim chatInput) as [|c t] eqn:E; [split; reflexivity|].
  split; [reflexivity|].
  unfold Room.onChat. cbn [mbind option_bind Room.text Room.nullish].
  rewrite <- E, trim_idempotent, E.
  split; [reflexivity|]. split; [discriminate|].
  pose proof (trim_head chatInput) as H. rewrite E in H. exact H.
Qed.

(** *** The chat log *)

Lemma slice_last_snoc {A : Type} (n : nat) (l : list A) (a : A) :
  slice_last n (slice_last n l ++ [a]) = slice_last n (l ++ [a]).
Proof.
  unfold slice_last.
  assert (E : skipn (List.length l - n) l ++ [a]
              = skipn (List.length l - n) (l ++ [a])).
  { rewrite skipn_app.
    replace (List.length l - n - List.length l)%nat with 0%nat by lia.
    reflexivity. }
  rewrite E, skipn_skipn. f_equal.
  rewrite List.length_skipn, !List.length_app. cbn [List.length]. lia.
Qed.

Lemma length_slice_last {A : Type} (n : nat) (l : list A) :
  List.length (slice_last n l) = Nat.min n (List.length l).
Proof. unfold slice_last. rewrite List.length_skipn. lia. Qed.

(** X19.  The chat log keeps the last 200 messages: after any sequence
    of chat broadcasts received since the page was opened the log is
    exactly the last 200 of them (all of them when there are fewer), in
    the order received. *)
Theorem chat_log_keeps_last_200 (msgs : list Room.Broadcast) :
  fold_left onChatMessage msgs [] = slice_last 200 msgs /\
  List.length (fold_left onChatMessage msgs []) =
    Nat.min 200 (List.length msgs) /\
  exists older, msgs = older ++ fold_left onChatMessage msgs [].
Proof.
  assert (H : fold_left onChatMessage msgs [] = slice_last 200 msgs).
  { induction msgs as [|m msgs IH] using rev_ind; [reflexivity|].
    rewrite fold_left_app. cbn [fold_left]. rewrite IH.
    unfold onChatMessage. apply slice_last_snoc. }
  rewrite H. split; [reflexivity|]. split; [apply length_slice_last|].
  exists (firstn (List.length msgs - 200) msgs).
  unfold slice_last. symmetry. apply firstn_skipn.
Qed.

(** *** The orbit camera *)

Lemma clamp_between (v lo hi : Q) :
  lo <= hi ->
  exists c, Math_max (Fin lo) (Math_min (Fin hi) (Fin v)) = Fin c /\
            lo <= c <= hi.
Proof.
  intros Hord.
  destruct (CollisionProps.clamp_Fin v lo hi Hord) as (c & Hc & Hrel).
  exists c. split; [exact Hc|].
  destruct Hrel as [[H ->] | [[H ->] | [H ->]]]; lra.
Qed.

Lemma cam_step_in_limits (cam : Cam) (e : CamEvent) :
  finite_event e = true -> cam_in_limits cam -> cam_in_limits (cam_step cam e).
Proof.
  intros He [(qp & Hp & Hpr) (qd & Hd & Hdr)].
  destruct e as [b | b | mx my | mode d]; cbn [cam_step].
  - unfold onMouseDown. destruct (Z.eqb b 0); split; eauto.
  - unfold onMouseUp. destruct (Z.eqb b 0); split; eauto.
  - unfold onMouseMove. destruct (lmbDown cam); cbn [negb]; [|split; eauto].
    cbn [finite_event] in He. apply andb_true_iff in He as [Hx Hy].
    destruct my as [| |my|]; try discriminate.
    split; cbn [pitch dist]; [|eauto].
    rewrite Hp. cbn [mul sub neg add].
    apply clamp_between. lra.
  - unfold onWheel. destruct mode; [|split; eauto].
    cbn [finite_event] in He. destruct d as [| |d|]; try discriminate.
    split; cbn [pitch dist]; [eauto|].
    rewrite Hd. cbn [mul add].
    apply clamp_between. lra.
Qed.

(** X20.  The camera never leaves its limits: after any sequence of
    mouse and wheel events with finite movements, starting from the
    initial camera, the pitch is in [-0.85, 0.35] and the distance in
    [4.5, 18]; drags without the left button held and wheel turns in
    first-person mode change neither. *)
Theorem camera_stays_in_limits (events : list CamEvent) :
  forallb finite_event events = true ->
  cam_in_limits (fold_left cam_step events initial_cam).
Proof.
  intros H.
  assert (G : forall cam, cam_in_limits cam ->
                          cam_in_limits (fold_left cam_step events cam)).
  { induction events as [|e events IH]; intros cam Hc; cbn [fold_left];
      [exact Hc|].
    cbn [forallb] in H. apply andb_true_iff in H as [He Hes].
    apply IH; [exact Hes|]. apply cam_step_in_limits; assumption. }
  apply G. split.
  - exists (- (25 # 100)). split; [reflexivity | lra].
  - exists 6. split; [reflexivity | lra].
Qed.

Lemma camera_stays_in_limits_witness :
  forallb finite_event
    [MouseDown 0; MouseMove (Fin 10) (Fin (-4000)); Wheel third (Fin 99999);
     Wheel first (Fin 1); MouseUp 0] = true /\
  cam_in_limits
    (fold_left cam_step
       [MouseDown 0; MouseMove (Fin 10) (Fin (-4000));
        Wheel third (Fin 99999); Wheel first (Fin 1); MouseUp 0]
       initial_cam).
Proof.
  assert (H : forallb finite_event
                [MouseDown 0; MouseMove (Fin 10) (Fin (-4000));
                 Wheel third (Fin 99999); Wheel first (Fin 1); MouseUp 0]
              = true) by reflexivity.
  split; [exact H|].
  exact (camera_stays_in_limits _ H).
Defined.

(** *** Emotes *)

Lemma playWave_idempotent (r : PlayerRig) : playWave (playWave r) = playWave r.
Proof.
  destruct (emoteActive r) eqn:He.
  - rewrite (AnimProps.playWave_active r He).
    apply AnimProps.playWave_active. exact He.
  - apply AnimProps.playWave_active. unfold playWave. rewrite He.
    reflexivity.
Qed.

(** X21.  The echo of one's own wave is harmless: when [wave()] has
    started the wave on the local rig and sent the emote, the server
    broadcasts it to the whole room, sender included, and the sender's
    listener leaves the registry of rigs exactly as [wave()] left it;
    when [wave()] sends nothing it has changed nothing. *)
Theorem own_wave_echo_is_ignored (rigs : gmap jsstring PlayerRig)
    (myId : jsstring) :
  match Client.wave true rigs myId with
  | (rigs1, Some msg) =>
      Room.onEmote myId (Some msg) = [Room.BEmote myId (lit "wave")] /\
      onEmoteMessage rigs1 myId (lit "wave") = rigs1 /\
      exists r, rigs !! myId = Some r /\
                rigs1 !! myId = Some (playWave r)
  | (rigs1, None) => rigs1 = rigs
  end.
Proof.
  unfold Client.wave. cbn [negb].
  destruct myId as [|c myId]; [exact eq_refl|].
  destruct (rigs !! _) as [r|] eqn:Hr; [|exact eq_refl].
  split; [reflexivity|]. split.
  - unfold onEmoteMessage. rewrite lookup_insert_eq.
    destruct (decide (lit "wave" = lit "wave")) as [_|Hn];
      [|destruct Hn; reflexivity].
    rewrite insert_insert_eq, playWave_idempotent. reflexivity.
  - exists r. split; [reflexivity | apply lookup_insert_eq].
Qed.

(** *** Avatar placement *)

(** X22.  The feet offset is always a finite number: it is the opposite
    of the lowest point of the model, which it brings to height zero, and
    it is zero when the box of the model has no finite lowest point (an
    empty model). *)
Theorem feet_offset_is_finite (box : Box3) :
  isFinite (computeFeetOffset box) = true /\
  match y (min box) with
  | Fin q => exists o, computeFeetOffset box = Fin o /\ q + o == 0
  | _ => computeFeetOffset box = Fin 0
  end.
Proof.
  unfold computeFeetOffset. cbv zeta.
  destruct (y (min box)) as [| |q|]; cbn [isFinite negb neg];
    try (split; reflexivity).
  split; [reflexivity|]. exists (- q). split; [reflexivity | lra].
Qed.




(** *** The frame of the local player *)

Lemma setBaseAnim_emoteActive (r : PlayerRig) (next : BaseKey) :
  emoteActive (setBaseAnim r next) = emoteActive r.
Proof.
  unfold setBaseAnim. destruct (emoteActive r) eqn:He; [exact He|].
  destruct (AnimKey_eqb (current r) (key_of next)); [exact He|].
  cbn [emoteActive]. reflexivity.
Qed.

Lemma setBaseAnim_current (r : PlayerRig) (next : BaseKey) :
  emoteActive r = false -> current (setBaseAnim r next) = key_of next.
Proof.
  intros He. unfold setBaseAnim. rewrite He.
  destruct (AnimKey_eqb (current r) (key_of next)) eqn:E; [|reflexivity].
  destruct (current r), next; try discriminate; reflexivity.
Qed.

Lemma isBlocked_ignores_y (colliderBoxes : list Box3) (p : Vector3)
    (y' : num) :
  isBlocked colliderBoxes {| x := x p; y := y'; z := z p |}
  = isBlocked colliderBoxes p.
Proof. reflexivity. Qed.

Section FrameProps.

Variable Math_sin : num -> num.
Variable Math_cos : num -> num.
Variable Math_sqrt : num -> num.
Variable Math_atan2 : num -> num -> num.

Local Abbreviation localFrame :=
  (localFrame Math_sin Math_cos Math_sqrt Math_atan2).

(** The three ways a frame can end for the local player. *)
Lemma localFrame_cases (connected : bool) (colliderBoxes : list Box3)
    (k : Keys) (camYaw dt : num) (me : LocalPlayer) :
  let stay :=
    {| position := {| x := x (position me); y := PLAYER_GROUND_Y;
                      z := z (position me) |};
       rotation_y := rotation_y me;
       rig := if negb (emoteActive (rig me))
              then setBaseAnim (rig me) base_idle else rig me |} in
  localFrame connected colliderBoxes k camYaw dt me = (stay, None) \/
  exists proposed faceYaw,
    isBlocked colliderBoxes proposed = false /\
    y proposed = PLAYER_GROUND_Y /\
    localFrame connected colliderBoxes k camYaw dt me =
      ({| position := proposed; rotation_y := faceYaw;
          rig := if negb (emoteActive (rig me))
                 then setBaseAnim (rig me) base_walk else rig me |},
       if connected
       then Some {| Room.msg_x := VNum (x proposed);
                    Room.msg_y := VNum PLAYER_GROUND_Y;
                    Room.msg_z := VNum (z proposed);
                    Room.msg_ry := VNum faceYaw |}
       else None).
Proof.
  cbv zeta. unfold Client.localFrame. cbv zeta.
  destruct (negb (Z.eqb (forwardInput k) 0) || negb (Z.eqb (strafeInput k) 0));
    [|left; reflexivity].
  match goal with |- context [ltb (Fin 0) ?l] =>
    destruct (ltb (Fin 0) l); [|left; reflexivity] end.
  match goal with |- context [isBlocked colliderBoxes ?p] =>
    destruct (isBlocked colliderBoxes p) eqn:Hb; cbn [negb];
      [left; reflexivity|];
    right; exists {| x := x p; y := PLAYER_GROUND_Y; z := z p |} end.
  eexists. split; [|split; [reflexivity|reflexivity]].
  rewrite <- Hb. reflexivity.
Qed.

(** X24.  Whatever the keys, the camera and the colliders, a frame
    leaves the local player on the ground plane ([y = PLAYER_GROUND_Y])
    and does not touch the emote flag.  It sends a move message only when
    connected and only for a position that [isBlocked] accepts, and the
    message carries exactly the position and the facing the player then
    has; when it sends nothing while connected, the player has not moved
    or turned. *)
Theorem local_frame_keeps_player_legal (connected : bool)
    (colliderBoxes : list Box3) (k : Keys) (camYaw dt : num)
    (me : LocalPlayer) :
  let (me', sent) := localFrame connected colliderBoxes k camYaw dt me in
  y (position me') = PLAYER_GROUND_Y /\
  emoteActive (rig me') = emoteActive (rig me) /\
  match sent with
  | Some m =>
      connected = true /\
      isBlocked colliderBoxes (position me') = false /\
      m = {| Room.msg_x := VNum (x (position me'));
             Room.msg_y := VNum PLAYER_GROUND_Y;
             Room.msg_z := VNum (z (position me'));
             Room.msg_ry := VNum (rotation_y me') |}
  | None =>
      connected = false \/
      (x (position me') = x (position me) /\
       z (position me') = z (position me) /\
       rotation_y me' = rotation_y me)
  end.
Proof.
  assert (He : forall n,
             emoteActive (if negb (emoteActive (rig me))
                          then setBaseAnim (rig me) n else rig me)
             = emoteActive (rig me)).
  { intros n. destruct (emoteActive (rig me)) eqn:E; cbn [negb];
      [exact E | rewrite setBaseAnim_emoteActive; exact E]. }
  destruct (localFrame_cases connected colliderBoxes k camYaw dt me)
    as [-> | (proposed & faceYaw & Hb & Hy & ->)].
  - cbn [position rotation_y rig x y z]. split; [reflexivity|].
    split; [apply He|]. right. auto.
  - cbn [position rotation_y rig]. split; [exact Hy|]. split; [apply He|].
    destruct connected; [|left; reflexivity].
    split; [reflexivity|]. split; [exact Hb | reflexivity].
Qed.

(** X25.  With no movement key held, or with opposite keys held
    together, the frame sends nothing and the player neither moves nor
    turns; unless an emote is playing, the rig goes to idle. *)
Theorem local_frame_without_input (connected : bool)
    (colliderBoxes : list Box3) (k : Keys) (camYaw dt : num)
    (me : LocalPlayer) :
  key_w k = key_s k -> key_a k = key_d k ->
  let (me', sent) := localFrame connected colliderBoxes k camYaw dt me in
  sent = None /\
  x (position me') = x (position me) /\
  z (position me') = z (position me) /\
  rotation_y me' = rotation_y me /\
  (if emoteActive (rig me) then rig me' = rig me
   else current (rig me') = idle).
Proof.
  intros Hws Had. unfold Client.localFrame. cbv zeta.
  replace (forwardInput k) with 0%Z
    by (unfold forwardInput; rewrite Hws; destruct (key_s k); reflexivity).
  replace (strafeInput k) with 0%Z
    by (unfold strafeInput; rewrite Had; destruct (key_d k); reflexivity).
  cbn [Z.eqb negb orb position rotation_y rig x z].
  repeat split.
  destruct (emoteActive (rig me)) eqn:He; cbn [negb]; [reflexivity|].
  apply (setBaseAnim_current (rig me) base_idle He).
Qed.

(** X26.  Unless an emote is playing, the animation follows the
    movement: after a frame of a connected client the rig shows walk
    when a move message was sent and idle when none was. *)
Theorem local_frame_animation_follows_movement (colliderBoxes : list Box3)
    (k : Keys) (camYaw dt : num) (me : LocalPlayer) :
  emoteActive (rig me) = false ->
  let (me', sent) := localFrame true colliderBoxes k camYaw dt me in
  shown (rig me') = match sent with Some _ => walk | None => idle end.
Proof.
  intros He.
  destruct (localFrame_cases true colliderBoxes k camYaw dt me)
    as [-> | (proposed & faceYaw & _ & _ & ->)];
    cbn [rig]; rewrite He; cbn [negb]; unfold shown;
    rewrite setBaseAnim_emoteActive, He;
    apply setBaseAnim_current; exact He.
Qed.

End FrameProps.

Lemma local_frame_without_input_witness :
  key_w no_keys = key_s no_keys /\ key_a no_keys = key_d no_keys /\
  let (me', sent) :=
    localFrame sin_at_0 cos_at_0 sqrt_at_1 atan2_const true
      [CollisionSpec.pillar] no_keys (Fin 0) (Fin (1 # 60)) fresh_player in
  sent = None /\
  x (position me') = x (position fresh_player) /\
  z (position me') = z (position fresh_player) /\
  rotation_y me' = rotation_y fresh_player /\
  (if emoteActive (rig fresh_player) then rig me' = rig fresh_player
   else current (rig me') = idle).
Proof.
  split; [reflexivity|]. split; [reflexivity|].
  exact (local_frame_without_input sin_at_0 cos_at_0 sqrt_at_1 atan2_const
           true [CollisionSpec.pillar] no_keys (Fin 0) (Fin (1 # 60))
           fresh_player eq_refl eq_refl).
Defined.

Lemma local_frame_animation_follows_movement_witness :
  emoteActive (rig fresh_player) = false /\
  snd (localFrame sin_at_0 cos_at_0 sqrt_at_1 atan2_const true
         [CollisionSpec.unit_cube] only_w (Fin 0) (Fin (1 # 60))
         fresh_player) <> None /\
  let (me', sent) :=
    localFrame sin_at_0 cos_at_0 sqrt_at_1 atan2_const true
      [CollisionSpec.unit_cube] only_w (Fin 0) (Fin (1 # 60)) fresh_player in
  shown (rig me') = match sent with Some _ => walk | None => idle end.
Proof.
  split; [reflexivity|]. split; [vm_compute; discriminate|].
  exact (local_frame_animation_follows_movement sin_at_0 cos_at_0 sqrt_at_1
           atan2_const [CollisionSpec.unit_cube] only_w (Fin 0)
           (Fin (1 # 60)) fresh_player eq_refl).
Defined.

(** *** From the frame to the room *)

Lemma clamp50_in_range (v : num) :
  RoomSpec.in_range v -> Room.clamp50 v = v.
Proof.
  destruct v as [| |q|]; cbn [RoomSpec.in_range]; try contradiction.
  intros [Hlo Hhi].
  destruct (RoomProps.clamp50_Fin q) as [Hc _]. cbn [RoomSpec.clamped] in Hc.
  destruct Hc as [[H _] | [[_ H] | [H _]]]; [lra | exact H | lra].
Qed.

(** X27.  What the server stores after a frame that moved the local
    player: handling the message of that frame, the room replaces the
    entry of the session by one with the same identity, the facing of the
    player, the height [PLAYER_GROUND_Y], and the player's x and z
    clamped to [-50, 50], hence the player's own x and z whenever these
    are within that interval. *)
Theorem frame_move_reaches_room (Math_sin Math_cos Math_sqrt : num -> num)
    (Math_atan2 : num -> num -> num) (colliderBoxes : list Box3)
    (k : Keys) (camYaw dt : num) (me me' : LocalPlayer) (m : Room.MoveMsg)
    (st : Room.MyRoomState) (sessionId : jsstring) (p : Room.PlayerState) :
  localFrame Math_sin Math_cos Math_sqrt Math_atan2 true colliderBoxes k
    camYaw dt me = (me', Some m) ->
  Room.players st !! sessionId = Some p ->
  exists p',
    Room.onMove st sessionId (Some m) =
      Room.Normal {| Room.players := <[sessionId := p']> (Room.players st);
                     Room.envKey := Room.envKey st |} /\
    Room.id p' = Room.id p /\ Room.name p' = Room.name p /\
    Room.avatarKey p' = Room.avatarKey p /\
    Room.y p' = PLAYER_GROUND_Y /\
    Room.ry p' = rotation_y me' /\
    Room.x p' = Room.clamp50 (x (position me')) /\
    Room.z p' = Room.clamp50 (z (position me')) /\
    (RoomSpec.in_range (x (position me')) -> Room.x p' = x (position me')) /\
    (RoomSpec.in_range (z (position me')) -> Room.z p' = z (position me')).
Proof.
  intros Hframe Hp.
  destruct (localFrame_cases Math_sin Math_cos Math_sqrt Math_atan2 true
              colliderBoxes k camYaw dt me)
    as [E | (proposed & faceYaw & _ & _ & E)];
    rewrite E in Hframe; [discriminate|].
  injection Hframe as <- <-.
  exists (RoomInv.moved p
            {| Room.msg_x := VNum (x proposed);
               Room.msg_y := VNum PLAYER_GROUND_Y;
               Room.msg_z := VNum (z proposed);
               Room.msg_ry := VNum faceYaw |}).
  split; [apply RoomMore.onMove_moved; exact Hp|].
  cbn [RoomInv.moved Room.id Room.name Room.avatarKey Room.x Room.y Room.z
       Room.ry Room.msg_x Room.msg_y Room.msg_z Room.msg_ry position
       rotation_y].
  repeat split; auto using clamp50_in_range.
Qed.

Lemma frame_move_reaches_room_witness :
  exists me' m p',
    localFrame sin_at_0 cos_at_0 sqrt_at_1 atan2_const true
      [CollisionSpec.unit_cube] only_w (Fin 0) (Fin (1 # 60)) fresh_player
    = (me', Some m) /\
    Room.players RoomSpec.room_of_alice !! RoomSpec.alice
    = Some (RoomSpec.spawned RoomSpec.alice (RoomSpec.wants "whitespace")) /\
    Room.onMove RoomSpec.room_of_alice RoomSpec.alice (Some m) =
      Room.Normal
        {| Room.players :=
             <[RoomSpec.alice := p']> (Room.players RoomSpec.room_of_alice);
           Room.envKey := Room.envKey RoomSpec.room_of_alice |} /\
    Room.y p' = PLAYER_GROUND_Y /\
    Room.ry p' = rotation_y me'.
Proof.
  destruct (localFrame sin_at_0 cos_at_0 sqrt_at_1 atan2_const true
              [CollisionSpec.unit_cube] only_w (Fin 0) (Fin (1 # 60))
              fresh_player) as [me' [m|]] eqn:E;
    [|vm_compute in E; discriminate].
  assert (Hp : Room.players RoomSpec.room_of_alice !! RoomSpec.alice
               = Some (RoomSpec.spawned RoomSpec.alice
                         (RoomSpec.wants "whitespace")))
    by (vm_compute; reflexivity).
  destruct (frame_move_reaches_room sin_at_0 cos_at_0 sqrt_at_1 atan2_const
              [CollisionSpec.unit_cube] only_w (Fin 0) (Fin (1 # 60))
              fresh_player me' m RoomSpec.room_of_alice RoomSpec.alice _
              E Hp)
    as (p' & Hrun & _ & _ & _ & Hy & Hry & _).
  exists me', m, p'. auto.
Defined.

(** *** Remote players *)

(** X28.  Each frame moves the rig of a remote player a quarter of the
    way to its target on every axis (in the exact arithmetic of the
    model): three quarters of the distance remain, and a rig that is at
    its target stays there. *)
Theorem remote_frame_closes_a_quarter (px py pz tx ty tz : Q) :
  exists nx ny nz,
    remoteFrame (mkVector3 (Fin px) (Fin py) (Fin pz))
      (mkVector3 (Fin tx) (Fin ty) (Fin tz))
    = mkVector3 (Fin nx) (Fin ny) (Fin nz) /\
    tx - nx == (3 # 4) * (tx - px) /\
    ty - ny == (3 # 4) * (ty - py) /\
    tz - nz == (3 # 4) * (tz - pz).
Proof.
  eexists _, _, _. split; [reflexivity|].
  repeat split; field.
Qed.

End ClientProps.
